(** * Verification of the transform-and-tell dataset readers

    Shallow embedding of [tell/data/dataset_readers/nytimes_names_copy.py]
    (reader [NYTimesNamesCopyReader]) and of
    [tell/data/dataset_readers/goodnews_rare.py] (reader [RareGoodNewsReader]).

    Modelling conventions:
    - Python [str] is [string]; [len] of a string is [String.length]
      (each character of a text is one [ascii] in the model).
    - Python [int] is [Z]; section indices taken from the store
      ([image_positions]) are [nat].
    - A Python [set] of strings is [gset string]; a [Counter] is
      [gmap string Z].
    - External collaborators (the BPE tokenizer behind [to_token_ids],
      [Image.open]) are Section variables, so every theorem holds for any
      tokenizer and any file system. *)

From Stdlib Require Import ZArith Lia Ascii String.
From stdpp Require Import base list gmap strings sorting.

Open Scope Z_scope.

(* ------------------------------------------------------------------ *)
(** ** Data model *)

(** One entry of a section's [parts_of_speech] list:
    [{'text': ..., 'pos': ..., 'start': ..., 'end': ...}]. *)
Record PosTag := mkPosTag {
  pt_text : string;
  pt_pos : string;
  pt_start : Z;
  pt_end : Z
}.

(** A name span [(start, end)], right end point excluded. *)
Abbreviation Span := (Z * Z)%type.

Definition PROPN : string := "PROPN".

Definition is_propn (t : PosTag) : bool := String.eqb (pt_pos t) PROPN.

(* ------------------------------------------------------------------ *)
(** ** [_get_proper_names] *)

(** Local variables of the loop in [_get_proper_names]. [start] and [end]
    are [None] in the source until the first span is opened; they are only
    read while [is_middle] holds, after they have been set, so the model
    starts them at [0]. *)
Record GpnState := mkGpn {
  g_names : list Span;
  g_start : Z;
  g_end : Z;
  g_is_middle : bool
}.

Definition gpn_init : GpnState := mkGpn [] 0 0 false.

(** [not self.rare_names]: the attribute is [None] or an empty set. *)
Definition no_rare_filter (rare_names : option (gset string)) : bool :=
  match rare_names with
  | None => true
  | Some s => bool_decide (s = ∅)
  end.

(** [pos['text'] in self.rare_names] (only evaluated when the set is
    non-empty). *)
Definition in_rare (rare_names : option (gset string)) (w : string) : bool :=
  match rare_names with
  | None => false
  | Some s => bool_decide (w ∈ s)
  end.

(** The condition under which a proper noun opens a span. *)
Definition opens (rare_names : option (gset string)) (t : PosTag) : bool :=
  no_rare_filter rare_names || in_rare rare_names (pt_text t).

(** One iteration of [for pos in parts_of_speech]. *)
Definition gpn_step (rare_names : option (gset string)) (st : GpnState)
    (t : PosTag) : GpnState :=
  if is_propn t && negb (g_is_middle st) then
    if opens rare_names t
    then mkGpn (g_names st) (pt_start t) (pt_end t) true
    else st
  else if is_propn t && g_is_middle st then
    mkGpn (g_names st) (g_start st) (pt_end t) (g_is_middle st)
  else if negb (is_propn t) && g_is_middle st then
    mkGpn (g_names st ++ [(g_start st, g_end st)]) (g_start st) (g_end st) false
  else st.

Definition gpn_loop (rare_names : option (gset string)) (st : GpnState)
    (ts : list PosTag) : GpnState :=
  fold_left (gpn_step rare_names) ts st.

(** [_get_proper_names(section)]: the section is given by its
    [parts_of_speech] list. *)
Definition get_proper_names (rare_names : option (gset string))
    (parts_of_speech : list PosTag) : list Span :=
  g_names (gpn_loop rare_names gpn_init parts_of_speech).

(* ------------------------------------------------------------------ *)
(** ** [_flatten_name_indices] *)

Fixpoint flatten_loop (offset : Z) (pars : list string)
    (indices : list (list Span)) : list Span :=
  match pars, indices with
  | par :: pars', idx_list :: indices' =>
      map (fun '(s, e) => (s + offset, e + offset)) idx_list
      ++ flatten_loop (offset + Z.of_nat (String.length par) + 1) pars' indices'
  | _, _ => []
  end.

Definition flatten_name_indices (paragraphs : list string)
    (indices : list (list Span)) : list Span :=
  flatten_loop 0 paragraphs indices.

(* ------------------------------------------------------------------ *)
(** ** [__init__]: the rare-name set *)

(** The pickled [counters] dictionary: its ['context'] and ['caption']
    counters. *)
Record Counters := mkCounters {
  c_context : gmap string Z;
  c_caption : gmap string Z
}.

(** [Counter.__add__]: counts of common keys are summed and only positive
    counts are kept. *)
Definition counter_add (c1 c2 : gmap string Z) : gmap string Z :=
  filter (fun kv => 0 < kv.2) (union_with (fun x y => Some (x + y)) c1 c2).

(** [set([w for w in counter if counter[w] < threshold])] with
    [counter = counters['context'] + counters['caption']]. *)
Definition rare_names_of (counters : Counters) (threshold : Z) : gset string :=
  dom (filter (fun kv => kv.2 < threshold)
         (counter_add (c_context counters) (c_caption counters))).

(** [self.rare_names]: [None] when [name_counters_path is None]. *)
Definition init_rare_names (counters : option Counters) (threshold : Z)
    : option (gset string) :=
  match counters with
  | Some c => Some (rare_names_of c threshold)
  | None => None
  end.

(* ------------------------------------------------------------------ *)
(** ** [str.strip] *)

(** Python's [str.isspace] on the ASCII range: space, [\t \n \v \f \r]
    and the separators [\x1c]-[\x1f]. *)
Definition is_py_space (c : ascii) : bool :=
  let n := nat_of_ascii c in
  (n =? 32)%nat || ((9 <=? n)%nat && (n <=? 13)%nat)
  || ((28 <=? n)%nat && (n <=? 31)%nat).

Fixpoint lstrip_chars (cs : list ascii) : list ascii :=
  match cs with
  | c :: cs' => if is_py_space c then lstrip_chars cs' else cs
  | [] => []
  end.

Definition strip (s : string) : string :=
  string_of_list_ascii
    (rev (lstrip_chars (rev (lstrip_chars (list_ascii_of_string s))))).

(* ------------------------------------------------------------------ *)
(** ** Articles *)

(** An element of [article['parsed_section']]. *)
Record Sec := mkSec {
  sec_type : string;
  sec_text : string;
  sec_hash : string;
  sec_pos : list PosTag
}.

(** [article['headline']]: the optional ['main'] entry and the
    [parts_of_speech] read by [_get_proper_names(article['headline'])]. *)
Record Headline := mkHeadline {
  hl_main : option string;
  hl_pos : list PosTag
}.

(** The projected fields of an article document. *)
Record Article := mkArticle {
  art_sections : list Sec;
  art_image_positions : list nat;
  art_headline : Headline;
  art_web_url : string
}.

Definition is_paragraph (s : Sec) : bool := String.eqb (sec_type s) "paragraph".

Definition no_sec : Sec := mkSec "" "" "" [].

(** [sections[i]] for an index the loop has checked to be in range. *)
Definition sec_at (sections : list Sec) (i : Z) : Sec :=
  nth (Z.to_nat i) sections no_sec.

(** [os.path.join(d, name)] for two components. *)
Definition path_join (d name : string) : string :=
  if String.prefix "/" name then name
  else if String.eqb d "" then name
  else if String.eqb (String.substring (String.length d - 1) 1 d) "/"
  then d ++ name
  else d ++ "/" ++ name.

(** Exceptions that the per-image body of [_read] can raise. *)
Inductive PyError := IndexError | TypeError | ValueError.

(** How the iteration over a generator ends: exhausted, by an exception,
    or (model only) a [while True] loop that had not exited within the
    iteration bound the model gives it. *)
Inductive Stop := Done | Raised (e : PyError) | Stuck.

Section NYTimes.

(** [len(self.to_token_ids(text))]: the BPE tokenizer is external. *)
Variable count_tokens : string -> nat.
(** The decoded image type and [Image.open]: [None] when it raises
    [FileNotFoundError] or [OSError]. *)
Variable Image : Type.
Variable open_image : string -> option Image.
(** Reader configuration: [self.rare_names] and [self.image_dir]. *)
Variable rare_names : option (gset string).
Variable image_dir : string.

(** The local variables of the expansion loop of [_read]. *)
Record Window := mkWin {
  w_before : list string;
  w_before_names : list (list Span);
  w_after : list string;
  w_after_names : list (list Span);
  w_n_words : Z;
  w_i : Z;
  w_j : Z
}.

(** [for k, section in enumerate(sections): if paragraph: ...; break].
    Returns the final value of [k] and the section that broke the loop.
    Without a break [k] keeps its last value, [len(sections) - 1]. *)
Fixpoint anchor_search (k : Z) (sections : list Sec) : Z * option Sec :=
  match sections with
  | [] => (k - 1, None)
  | s :: rest => if is_paragraph s then (k, Some s) else anchor_search (k + 1) rest
  end.

(** One iteration of the body of [while True] (lines 145-158). *)
Definition loop_body (sections : list Sec) (k : Z) (w : Window) : Window :=
  let i := w_i w in
  let w1 :=
    if (k <? i) && is_paragraph (sec_at sections i) then
      let text := sec_text (sec_at sections i) in
      mkWin (text :: w_before w)
            (get_proper_names rare_names (sec_pos (sec_at sections i)) :: w_before_names w)
            (w_after w) (w_after_names w)
            (w_n_words w + Z.of_nat (count_tokens text)) i (w_j w)
    else w in
  let w2 := mkWin (w_before w1) (w_before_names w1) (w_after w1) (w_after_names w1)
                  (w_n_words w1) (i - 1) (w_j w1) in
  let j := w_j w2 in
  let w3 :=
    if (k <? j) && (j <? Z.of_nat (length sections)) && is_paragraph (sec_at sections j) then
      let text := sec_text (sec_at sections j) in
      mkWin (w_before w2) (w_before_names w2)
            (w_after w2 ++ [text])
            (w_after_names w2 ++ [get_proper_names rare_names (sec_pos (sec_at sections j))])
            (w_n_words w2 + Z.of_nat (count_tokens text)) (w_i w2) j
    else w2 in
  mkWin (w_before w3) (w_before_names w3) (w_after w3) (w_after_names w3)
        (w_n_words w3) (w_i w3) (j + 1).

(** [if n_words >= 510 or (i <= k and j >= len(sections)): break] *)
Definition loop_exit (sections : list Sec) (k : Z) (w : Window) : bool :=
  (510 <=? w_n_words w) || ((w_i w <=? k) && (Z.of_nat (length sections) <=? w_j w)).

(** [while True: body; if exit: break], run for at most [fuel] iterations;
    [None] when the loop has not exited by then. *)
Fixpoint expand (sections : list Sec) (k : Z) (fuel : nat) (w : Window)
    : option Window :=
  match fuel with
  | O => None
  | S fuel' =>
      let w' := loop_body sections k w in
      if loop_exit sections k w' then Some w' else expand sections k fuel' w'
  end.

(** The arguments of [self.article_to_instance(...)] at [yield]. *)
Record InstanceArgs := mkArgs {
  ia_paragraphs : list string;
  ia_name_indices : list Span;
  ia_caption_name_indices : list Span;
  ia_image : Image;
  ia_caption : string;
  ia_image_path : string;
  ia_web_url : string;
  ia_pos : nat
}.

(** [title = article['headline']['main'].strip()] if present, else ['']. *)
Definition title_of (h : Headline) : string :=
  match hl_main h with
  | Some m => strip m
  | None => ""
  end.

(** Lines 116-126: [paragraphs], [paragraph_names] and [n_words] after the
    headline has been added. *)
Definition headline_part (h : Headline) : list string * list (list Span) * Z :=
  let title := title_of h in
  if negb (String.eqb title "")
  then ([title], [get_proper_names rare_names (hl_pos h)],
        Z.of_nat (count_tokens title))
  else ([], [], 0).

(** Lines 132-161: anchor search and expansion, starting from the headline
    part. Returns [paragraphs], [paragraph_names] after the anchor, and the
    loop variables at the [break] ([None] if the loop has not exited within
    [len(sections)] iterations). *)
Definition build_window (sections : list Sec) (pos : nat)
    (paragraphs : list string) (paragraph_names : list (list Span))
    (n_words : Z) : option (list string * list (list Span) * Z * Window) :=
  let '(k, anchor) := anchor_search 0 sections in
  let '(paragraphs, paragraph_names) :=
    match anchor with
    | Some s => (paragraphs ++ [sec_text s],
                 paragraph_names ++ [get_proper_names rare_names (sec_pos s)])
    | None => (paragraphs, paragraph_names)
    end in
  let w0 := mkWin [] [] [] [] n_words (Z.of_nat pos - 1) (Z.of_nat pos + 1) in
  match expand sections k (length sections) w0 with
  | Some w => Some (paragraphs, paragraph_names, k, w)
  | None => None
  end.

(** Result of the body of [for pos in image_positions]. *)
Inductive PosOutcome :=
  | Continue
  | Yield (a : InstanceArgs)
  | Raise (e : PyError)
  | NoExit.

(** The body of [for pos in image_positions] (lines 116-179). *)
Definition read_pos (art : Article) (pos : nat) : PosOutcome :=
  let sections := art_sections art in
  let '(paragraphs, paragraph_names, n_words) := headline_part (art_headline art) in
  match nth_error sections pos with
  | None => Raise IndexError
  | Some cap_sec =>
      let caption := strip (sec_text cap_sec) in
      if String.eqb caption "" then Continue else
      match build_window sections pos paragraphs paragraph_names n_words with
      | None => NoExit
      | Some (paragraphs, paragraph_names, _, w) =>
          let image_path := path_join image_dir (sec_hash cap_sec ++ ".jpg") in
          match open_image image_path with
          | None => Continue
          | Some image =>
              let caption_name_indices := get_proper_names rare_names (sec_pos cap_sec) in
              let paragraphs := paragraphs ++ w_before w ++ w_after w in
              let name_indices := paragraph_names ++ w_before_names w ++ w_after_names w in
              let name_indices := flatten_name_indices paragraphs name_indices in
              Yield (mkArgs paragraphs name_indices caption_name_indices image
                       caption image_path (art_web_url art) pos)
          end
      end
  end.

(** [for pos in image_positions]: the instances yielded and how the loop
    ends. *)
Fixpoint read_positions (art : Article) (ps : list nat) : list InstanceArgs * Stop :=
  match ps with
  | [] => ([], Done)
  | pos :: ps' =>
      match read_pos art pos with
      | Continue => read_positions art ps'
      | Yield a => let '(xs, st) := read_positions art ps' in (a :: xs, st)
      | Raise e => ([], Raised e)
      | NoExit => ([], Stuck)
      end
  end.

(** [for article in article_cursor]: the articles matching the split's
    query, in cursor order. *)
Fixpoint read_articles (arts : list Article) : list InstanceArgs * Stop :=
  match arts with
  | [] => ([], Done)
  | art :: arts' =>
      let '(xs, st) := read_positions art (art_image_positions art) in
      match st with
      | Done => let '(ys, st') := read_articles arts' in (xs ++ ys, st')
      | _ => (xs, st)
      end
  end.

End NYTimes.

(* ------------------------------------------------------------------ *)
(** ** Offset flattening as the spec states it *)

(** Spec of the Offset Flattener, in the spec's words: [offset_0 = 0] and
    [offset_(i+1) = offset_i + len(paragraph_i) + 1]. *)
Fixpoint spec_offset (paragraphs : list string) (i : nat) : Z :=
  match i with
  | O => 0
  | S i' => spec_offset paragraphs i' + Z.of_nat (String.length (nth i' paragraphs "")) + 1
  end.

(** Spec of the Offset Flattener: each local span [(start, end)] of
    paragraph [i] becomes [(start + offset_i, end + offset_i)], paragraph by
    paragraph and in order within a paragraph (pairs beyond the shorter of
    the two lists are dropped, as [zip] does). *)
Definition spec_flatten (paragraphs : list string) (indices : list (list Span))
    : list Span :=
  concat (imap (fun i idx_list =>
                  map (fun sp => (sp.1 + spec_offset paragraphs i,
                                  sp.2 + spec_offset paragraphs i)) idx_list)
               (take (length paragraphs) indices)).

(* ------------------------------------------------------------------ *)
(** ** Slices of the section list *)

(** [sections[lo:hi]] for [0 <= lo]. *)
Definition sec_slice (sections : list Sec) (lo hi : Z) : list Sec :=
  drop (Z.to_nat lo) (take (Z.to_nat hi) sections).

(** The texts of the paragraph sections of [sections[lo:hi]], in article
    order. *)
Definition par_texts (sections : list Sec) (lo hi : Z) : list string :=
  map sec_text (List.filter is_paragraph (sec_slice sections lo hi)).

(** Loop invariant of the expansion: the backward paragraphs are those of
    [sections[max(i+1, k+1):pos]], the forward ones those of
    [sections[max(pos+1, k+1):j]]. *)
Definition win_inv (sections : list Sec) (k pos : Z) (w : Window) : Prop :=
  w_before w = par_texts sections (Z.max (w_i w + 1) (k + 1)) pos /\
  w_after w = par_texts sections (Z.max (pos + 1) (k + 1)) (w_j w) /\
  w_i w < pos < w_j w.

(* ------------------------------------------------------------------ *)
(** ** [RareGoodNewsReader._read] *)

(** A document of [db.splits]. *)
Record GSample := mkGSample {
  gs_id : string;
  gs_split : string;
  gs_article_id : string;
  gs_image_index : nat
}.

(** A document of [db.articles] (GoodNews). *)
Record GArticle := mkGArticle {
  ga_id : string;
  ga_context : string;
  ga_images : list string;
  ga_web_url : string
}.

(** [db.articles.find_one({'_id': {'$eq': id}})]. *)
Fixpoint find_one (articles : list GArticle) (id : string) : option GArticle :=
  match articles with
  | [] => None
  | a :: rest => if String.eqb (ga_id a) id then Some a else find_one rest id
  end.

Section GoodNews.

Variable Image : Type.
Variable open_image : string -> option Image.
Variable image_dir : string.
Variable eval_limit : nat.

(** The fields and metadata [article_to_instance] builds, before
    tokenization. *)
Record GInstanceArgs := mkGArgs {
  gi_context : string;
  gi_caption : string;
  gi_image : Image;
  gi_web_url : string;
  gi_image_path : string
}.

(** [article_to_instance(article, image, image_index, image_path)]:
    [article['context']] raises [TypeError] when [find_one] returned
    [None], [article['images'][image_index]] raises [IndexError] out of
    range. *)
Definition g_article_to_instance (article : option GArticle) (image : Image)
    (image_index : nat) (image_path : string) : PyError + GInstanceArgs :=
  match article with
  | None => inl TypeError
  | Some art =>
      let context := strip (ga_context art) in
      match nth_error (ga_images art) image_index with
      | None => inl IndexError
      | Some caption =>
          inr (mkGArgs context (strip caption) image (ga_web_url art) image_path)
      end
  end.

(** [for sample in sample_cursor]: the instances yielded and how the
    loop ends. *)
Fixpoint read_samples (articles : list GArticle) (samples : list GSample)
    : list GInstanceArgs * Stop :=
  match samples with
  | [] => ([], Done)
  | sample :: rest =>
      let article := find_one articles (gs_article_id sample) in
      let image_path := path_join image_dir (gs_id sample ++ ".jpg") in
      match open_image image_path with
      | None => read_samples articles rest
      | Some image =>
          match g_article_to_instance article image (gs_image_index sample) image_path with
          | inr x => let '(xs, st) := read_samples articles rest in (x :: xs, st)
          | inl e => ([], Raised e)
          end
      end
  end.

(** [_read(split)]: the cursor holds the samples of the split, at most
    [eval_limit] of them for ['val'] ([limit=0] means no limit). *)
Definition g_read (split : string) (articles : list GArticle) (samples : list GSample)
    : list GInstanceArgs * Stop :=
  if negb (String.eqb split "train" || String.eqb split "val" || String.eqb split "test")
  then ([], Raised ValueError)
  else
    let limit := if String.eqb split "val" then eval_limit else 0%nat in
    let cursor := List.filter (fun s => String.eqb (gs_split s) split) samples in
    let cursor := if (limit =? 0)%nat then cursor else take limit cursor in
    read_samples articles cursor.

End GoodNews.

(* ------------------------------------------------------------------ *)
(** ** Concrete inputs *)

Definition tag (w p : string) (s e : Z) : PosTag := mkPosTag w p s e.

(** "Alice Smith said" *)
Definition alice_smith_said : list PosTag :=
  [tag "Alice" "PROPN" 0 5; tag "Smith" "PROPN" 6 11; tag "said" "VERB" 12 16].
(** "Bob Smith said" *)
Definition bob_smith_said : list PosTag :=
  [tag "Bob" "PROPN" 0 3; tag "Smith" "PROPN" 4 9; tag "said" "VERB" 10 14].
(** "Alice Smith" *)
Definition alice_smith : list PosTag :=
  [tag "Alice" "PROPN" 0 5; tag "Smith" "PROPN" 6 11].
(** "Bob said" *)
Definition bob_said : list PosTag :=
  [tag "Bob" "PROPN" 0 3; tag "said" "VERB" 4 8].
(** "Yesterday Bob Alice Jones met New York police" *)
Definition mixed_tags : list PosTag :=
  [tag "Yesterday" "NOUN" 0 9; tag "Bob" "PROPN" 10 13; tag "Alice" "PROPN" 14 19;
   tag "Jones" "PROPN" 20 25; tag "met" "VERB" 26 29; tag "New" "PROPN" 30 33;
   tag "York" "PROPN" 34 38; tag "police" "NOUN" 39 45].

Definition par (t : string) : Sec := mkSec "paragraph" t "" [].
Definition img (t h : string) : Sec := mkSec "image" t h [].

(** [A, B1, B2, <image>, C1, C2] *)
Definition six_sections : list Sec :=
  [par "A"; par "B1"; par "B2"; img "cap" "h"; par "C1"; par "C2"].
(** [Anchor, <image>] *)
Definition anchor_sections : list Sec := [par "Anchor"; img "cap" "h"].
(** Two images and no paragraph. *)
Definition no_par_sections : list Sec := [img "one" "h1"; img "two" "h2"].

(** The spec's end-to-end scenario: headline "X dies", then paragraph "A",
    the image, paragraph "B". *)
Definition ex_counters : Counters :=
  mkCounters (<["Smith" := 7]> {["Alice" := 12]}) (<["Smith" := 5]> {["Bob" := 10]}).

Definition x_dies_article : Article :=
  mkArticle [par "A"; img "cap" "h1"; par "B"] [1%nat]
            (mkHeadline (Some " X dies ") []) "https://example.com/x".

(* ------------------------------------------------------------------ *)
(** ** [tokenize_line] and [to_token_ids] *)

(** [SPACE_NORMALIZER.sub(" ", line)] with [SPACE_NORMALIZER = re.compile(r"\s+")]:
    every maximal run of whitespace becomes one space. [in_run] holds
    while the characters just read belong to a replaced run. *)
Fixpoint sub_space (in_run : bool) (cs : list ascii) : list ascii :=
  match cs with
  | [] => []
  | c :: cs' =>
      if is_py_space c then
        if in_run then sub_space true cs' else " "%char :: sub_space true cs'
      else c :: sub_space false cs'
  end.

(** [str.split()] without separator: the maximal runs of non-whitespace
    characters, in order; [cur] is the word being read. *)
Fixpoint split_words (cur : list ascii) (cs : list ascii) : list (list ascii) :=
  match cs with
  | [] => match cur with [] => [] | _ => [cur] end
  | c :: cs' =>
      if is_py_space c then
        match cur with
        | [] => split_words [] cs'
        | _ => cur :: split_words [] cs'
        end
      else split_words (cur ++ [c]) cs'
  end.

Definition py_split (s : string) : list string :=
  map string_of_list_ascii (split_words [] (list_ascii_of_string s)).

(** [tokenize_line(line)] *)
Definition tokenize_line (line : string) : list string :=
  let line := string_of_list_ascii (sub_space false (list_ascii_of_string line)) in
  let line := strip line in
  py_split line.

(** The loop of [to_token_ids]: [idx = self.indices[word]] for each word;
    [None] is the [KeyError] of a word missing from the dictionary. *)
Fixpoint token_ids_loop (indices : gmap string Z) (words : list string)
    : option (list Z) :=
  match words with
  | [] => Some []
  | word :: words' =>
      match indices !! word with
      | None => None
      | Some idx =>
          match token_ids_loop indices words' with
          | None => None
          | Some ids => Some (idx :: ids)
          end
      end
  end.

(** [to_token_ids(sentence)]: [bpe_encode] is [self.bpe.encode], [indices]
    is [self.indices]. *)
Definition to_token_ids (bpe_encode : string -> string) (indices : gmap string Z)
    (sentence : string) : option (list Z) :=
  let bpe_tokens := bpe_encode sentence in
  let words := tokenize_line bpe_tokens in
  token_ids_loop indices words.

(* ------------------------------------------------------------------ *)
(** ** The context string of [article_to_instance] *)

(** [sep.join(xs)] *)
Fixpoint py_join (sep : string) (xs : list string) : string :=
  match xs with
  | [] => ""
  | [x] => x
  | x :: xs' => x ++ sep ++ py_join sep xs'
  end.

Definition newline : string := String (ascii_of_nat 10) EmptyString.

(** [context = '\n'.join(paragraphs).strip()] *)
Definition instance_context (paragraphs : list string) : string :=
  strip (py_join newline paragraphs).

(** [s[a:b]] for [0 <= a]. *)
Definition py_slice (s : string) (a b : Z) : string :=
  string_of_list_ascii (take (Z.to_nat (b - a)) (drop (Z.to_nat a) (list_ascii_of_string s))).

(* ------------------------------------------------------------------ *)
(** ** The article query of [NYTimesNamesCopyReader._read] *)

(** A [datetime] as its fields [(year, month, day, hour, minute, second,
    microsecond)]; Python compares them lexicographically. *)
Abbreviation Datetime := (list Z).

Definition datetime (y m d : Z) : Datetime := [y; m; d; 0; 0; 0; 0].

Fixpoint dt_cmp (a b : Datetime) : comparison :=
  match a, b with
  | x :: a', y :: b' =>
      match Z.compare x y with
      | Eq => dt_cmp a' b'
      | c => c
      end
  | [], [] => Eq
  | [], _ => Lt
  | _, [] => Gt
  end.

Definition dt_lt (a b : Datetime) : bool :=
  match dt_cmp a b with Lt => true | _ => false end.

(** Lines 88-98: [start] and [end] of a split. *)
Definition split_range (split : string) : PyError + (Datetime * Datetime) :=
  if String.eqb split "train" then inr (datetime 2000 1 1, datetime 2019 5 1)
  else if String.eqb split "valid" then inr (datetime 2019 5 1, datetime 2019 6 1)
  else if String.eqb split "test" then inr (datetime 2019 6 1, datetime 2019 9 1)
  else inl ValueError.

(** The queried fields of an article document. *)
Record ArticleDoc := mkDoc {
  doc_parsed : bool;
  doc_n_images : Z;
  doc_pub_date : Datetime;
  doc_language : string
}.

(** The filter of [self.db.articles.find(...)] (lines 105-110). *)
Definition article_query (start end_ : Datetime) (d : ArticleDoc) : bool :=
  doc_parsed d && (0 <? doc_n_images d) &&
  negb (dt_lt (doc_pub_date d) start) && dt_lt (doc_pub_date d) end_ &&
  String.eqb (doc_language d) "en".

(** Whether the cursor of [_read(split)] returns the document: [inl] when
    the split is unknown. *)
Definition in_split (split : string) (d : ArticleDoc) : PyError + bool :=
  match split_range split with
  | inl e => inl e
  | inr (start, end_) => inr (article_query start end_ d)
  end.

(* ------------------------------------------------------------------ *)
(** ** [RareGoodNewsReader.__init__]: [self.most_common] *)

(** [itertools.takewhile(p, l)] *)
Fixpoint takewhile {A} (p : A -> bool) (l : list A) : list A :=
  match l with
  | [] => []
  | x :: l' => if p x then x :: takewhile p l' else []
  end.

(** [dict(pairs)]: later pairs overwrite earlier ones. *)
Definition dict_of_list (pairs : list (string * Z)) : gmap string Z :=
  fold_left (fun m kv => <[kv.1 := kv.2]> m) pairs ∅.

(** [dict(takewhile(lambda x: x[1] > rare_threshold, counter.most_common()))],
    [most_common] being the list [counter.most_common()]. *)
Definition most_common_of (most_common : list (string * Z)) (rare_threshold : Z)
    : gmap string Z :=
  dict_of_list (takewhile (fun x => rare_threshold <? x.2) most_common).

(* ------------------------------------------------------------------ *)
(** ** Predicates and inputs for the reader properties *)

(** [c.isspace()] *)
Definition is_sp (c : ascii) : Prop := is_py_space c = true.

(** A word of [str.split()]: non-empty, no whitespace. *)
Definition py_word (w : string) : Prop :=
  w <> "" /\ Forall (fun c => is_py_space c = false) (list_ascii_of_string w).

(** [before]/[before_names] and [after]/[after_names] have equal lengths. *)
Definition win_aligned (w : Window) : Prop :=
  length (w_before w) = length (w_before_names w) /\
  length (w_after w) = length (w_after_names w).

(** A [counter.most_common()] list. *)
Definition mc_ex : list (string * Z) := [("Smith", 30); ("Alice", 12); ("Bob", 3)].

(** An article document published on 2019-05-15 at 10:30. *)
Definition doc_may : ArticleDoc := mkDoc true 2 [2019; 5; 15; 10; 30; 0; 0] "en".

(** One GoodNews article with two captions, and three samples. *)
Definition g_articles : list GArticle :=
  [mkGArticle "a1" " Context text. " [" A caption "; "Second"] "https://example.com/a1"].
Definition g_samples : list GSample :=
  [mkGSample "s1" "val" "a1" 0; mkGSample "s2" "val" "a1" 1; mkGSample "s3" "train" "a1" 0].

(** Paragraphs "X dies" and "Alice met Bob", with the names of the second. *)
Definition ctx_pars : list string := ["X dies"; "Alice met Bob"].
Definition ctx_names : list (list Span) := [[]; [(0, 5); (10, 13)]].

(** The instance of [x_dies_article] for image position 1, with every
    image opening and one token per character. *)
Definition x_dies_args : InstanceArgs unit :=
  mkArgs unit ["X dies"; "A"; "B"] [] [] tt "cap" "/images/h1.jpg" "https://example.com/x" 1.

(* ------------------------------------------------------------------ *)
(** ** Reasoning about [_get_proper_names] *)

(** Token [a] lies entirely before token [b] in the section text. *)
Definition tok_before (a b : PosTag) : Prop :=
  pt_start a < pt_start b /\ pt_end a <= pt_start b.

(** Span [a] lies entirely before span [b]: smaller start, no overlap. *)
Definition span_before (a b : Span) : Prop :=
  a.1 < b.1 /\ a.2 <= b.1.

(** A run can only start at the beginning or after a non-proper noun. *)
Definition run_boundary (pre : list PosTag) : Prop :=
  pre = [] \/ exists pre' t, pre = pre' ++ [t] /\ is_propn t = false.

(** A proper noun passed over because it may not open a span. *)
Definition skip_tok (rare_names : option (gset string)) (t : PosTag) : Prop :=
  is_propn t = true /\ opens rare_names t = false.

(** [sp] is the span of a run of proper nouns of [ts]: the run starts after
    [pre], its first [skipped] tokens could not open a span, the span goes
    from [ta] to the last proper noun of the run, and the non-proper noun
    [tnon] closes it. *)
Definition closed_run (rare_names : option (gset string)) (ts : list PosTag)
    (sp : Span) : Prop :=
  exists pre skipped ta rest tnon post,
    ts = pre ++ skipped ++ ta :: rest ++ tnon :: post /\
    run_boundary pre /\
    Forall (skip_tok rare_names) skipped /\
    is_propn ta = true /\ opens rare_names ta = true /\
    Forall (fun t => is_propn t = true) rest /\
    is_propn tnon = false /\
    sp = (pt_start ta, pt_end (List.last (ta :: rest) ta)).

(** Loop invariant of [_get_proper_names] after the prefix [xs]. *)
Definition gpn_inv (rare_names : option (gset string)) (xs : list PosTag)
    (st : GpnState) : Prop :=
  StronglySorted span_before (g_names st) /\
  (forall sp, sp ∈ g_names st -> closed_run rare_names xs sp) /\
  exists pre skipped,
    run_boundary pre /\ Forall (skip_tok rare_names) skipped /\
    (forall sp, sp ∈ g_names st ->
       exists a b, a ∈ pre /\ b ∈ pre /\ sp = (pt_start a, pt_end b)) /\
    if g_is_middle st then
      exists ta rest,
        xs = pre ++ skipped ++ ta :: rest /\
        is_propn ta = true /\ opens rare_names ta = true /\
        Forall (fun t => is_propn t = true) rest /\
        g_start st = pt_start ta /\ g_end st = pt_end (List.last (ta :: rest) ta)
    else xs = pre ++ skipped.

Lemma gpn_loop_snoc F st xs x :
  gpn_loop F st (xs ++ [x]) = gpn_step F (gpn_loop F st xs) x.
Proof. unfold gpn_loop. by rewrite fold_left_app. Qed.

Lemma closed_run_app F xs ys sp :
  closed_run F xs sp -> closed_run F (xs ++ ys) sp.
Proof.
  intros (pre & sk & ta & rest & tnon & post & -> & H). 
  exists pre, sk, ta, rest, tnon, (post ++ ys). split; [|exact H].
  by rewrite <- !app_assoc; simpl; rewrite <- !app_assoc.
Qed.

Lemma last_snoc_cons (ta x : PosTag) rest :
  List.last (ta :: rest ++ [x]) ta = x.
Proof.
  change (ta :: rest ++ [x]) with ((ta :: rest) ++ [x]).
  apply List.last_last.
Qed.

Lemma last_cons_in_gen (ta d : PosTag) rest : List.last (ta :: rest) d ∈ ta :: rest.
Proof.
  revert ta. induction rest as [|t rest IH]; intros ta.
  - simpl. set_solver.
  - change (List.last (ta :: t :: rest) d) with (List.last (t :: rest) d).
    specialize (IH t). set_solver.
Qed.

Lemma last_cons_in (ta : PosTag) rest : List.last (ta :: rest) ta ∈ ta :: rest.
Proof. apply last_cons_in_gen. Qed.

Lemma gpn_inv_init F : gpn_inv F [] gpn_init.
Proof.
  split; [constructor|]. split; [intros sp Hsp; set_solver|].
  exists [], []. split; [by left|]. split; [constructor|].
  split; [intros sp Hsp; set_solver|]. reflexivity.
Qed.

Lemma gpn_inv_step F xs x st :
  StronglySorted tok_before (xs ++ [x]) ->
  gpn_inv F xs st -> gpn_inv F (xs ++ [x]) (gpn_step F st x).
Proof.
  intros Hts. destruct st as [names s e mid].
  intros (Hsort & Hclosed & pre & sk & Hpre & Hsk & Htoks & Hmid). simpl in *.
  unfold gpn_step; simpl.
  destruct (is_propn x) eqn:Hx; destruct mid; simpl.
  - (* proper noun inside a run: extend the end *)
    destruct Hmid as (ta & rest & Hxs & Hta & Hopen & Hrest & -> & ->).
    split; [done|]. split; [intros sp Hsp; apply closed_run_app; auto|].
    exists pre, sk. do 3 (split; [done|]).
    exists ta, (rest ++ [x]). split; [by rewrite Hxs, <- !app_assoc|].
    do 2 (split; [done|]). split; [apply Forall_app; auto|].
    split; [done|]. by rewrite last_snoc_cons.
  - (* proper noun outside a run: open one if allowed *)
    destruct (opens F x) eqn:Hop; simpl.
    + split; [done|]. split; [intros sp Hsp; apply closed_run_app; auto|].
      exists pre, sk. do 3 (split; [done|]).
      exists x, []. split; [by rewrite Hmid, <- !app_assoc|].
      repeat split; auto.
    + split; [done|]. split; [intros sp Hsp; apply closed_run_app; auto|].
      exists pre, (sk ++ [x]). split; [done|].
      split; [apply Forall_app; split; [done|]; constructor; [split; auto|constructor]|].
      split; [done|]. by rewrite Hmid, <- !app_assoc.
  - (* other token inside a run: close the run *)
    destruct Hmid as (ta & rest & Hxs & Hta & Hopen & Hrest & -> & ->).
    assert (Hbefore : forall a, a ∈ pre -> tok_before a ta).
    { intros a Ha. apply (StronglySorted_app_1_elem_of _ pre (sk ++ ta :: rest ++ [x]));
        [|done|set_solver].
      rewrite Hxs in Hts. by rewrite <- !app_assoc in Hts. }
    assert (Hlast : List.last (ta :: rest) ta ∈ xs).
    { rewrite Hxs. pose proof (last_cons_in ta rest). set_solver. }
    split.
    { apply StronglySorted_app_2; [|done|repeat constructor].
      intros sp1 sp2 Hsp1 Hsp2. apply list_elem_of_singleton in Hsp2. subst sp2.
      destruct (Htoks sp1 Hsp1) as (a & b & Ha & Hb & ->).
      destruct (Hbefore a Ha) as [Ha1 _]. destruct (Hbefore b Hb) as [_ Hb2].
      unfold span_before; simpl. lia. }
    split.
    { intros sp Hsp. apply elem_of_app in Hsp as [Hsp|Hsp].
      - apply closed_run_app; auto.
      - apply list_elem_of_singleton in Hsp. subst sp.
        exists pre, sk, ta, rest, x, []. split; [by rewrite Hxs, <- !app_assoc|].
        repeat split; auto. }
    exists (xs ++ [x]), []. split; [right; eauto|]. split; [constructor|].
    split; [|by rewrite app_nil_r].
    intros sp Hsp. apply elem_of_app in Hsp as [Hsp|Hsp].
    + destruct (Htoks sp Hsp) as (a & b & Ha & Hb & ->).
      exists a, b. rewrite Hxs. set_solver.
    + apply list_elem_of_singleton in Hsp. subst sp.
      exists ta, (List.last (ta :: rest) ta). split; [|split; [set_solver|done]].
      rewrite Hxs. set_solver.
  - (* other token outside a run: nothing changes *)
    split; [done|]. split; [intros sp Hsp; apply closed_run_app; auto|].
    exists (xs ++ [x]), []. split; [right; eauto|]. split; [constructor|].
    split; [|by rewrite app_nil_r].
    intros sp Hsp. destruct (Htoks sp Hsp) as (a & b & Ha & Hb & ->).
    exists a, b. rewrite Hmid. set_solver.
Qed.

Lemma gpn_inv_loop F ts :
  StronglySorted tok_before ts -> gpn_inv F ts (gpn_loop F gpn_init ts).
Proof.
  induction ts as [|x xs IH] using rev_ind; intros Hts.
  - apply gpn_inv_init.
  - rewrite gpn_loop_snoc. apply gpn_inv_step; [done|].
    apply IH. by apply StronglySorted_app_1_l in Hts.
Qed.

Lemma gpn_step_not_propn_closed F st t :
  is_propn t = false -> g_is_middle (gpn_step F st t) = false.
Proof.
  intros Ht. unfold gpn_step. rewrite Ht. simpl.
  destruct (g_is_middle st) eqn:Hm; simpl; [done|]. by rewrite Hm.
Qed.

Lemma gpn_boundary_closed F pre :
  run_boundary pre -> g_is_middle (gpn_loop F gpn_init pre) = false.
Proof.
  intros [-> | (pre' & t & -> & Ht)]; [done|].
  rewrite gpn_loop_snoc. by apply gpn_step_not_propn_closed.
Qed.

Lemma gpn_propn_names F st run :
  Forall (fun t => is_propn t = true) run ->
  g_names (gpn_loop F st run) = g_names st.
Proof.
  unfold gpn_loop. revert st.
  induction run as [|t run IH]; intros st Hrun; [done|].
  inversion Hrun as [|? ? Ht Hrest]; subst. simpl. rewrite IH; [|done].
  unfold gpn_step. rewrite Ht. simpl.
  destruct (g_is_middle st); simpl; [done|]. by destruct (opens F t).
Qed.

(** With no filter, or an empty one, every proper noun may open a span. *)
Lemma opens_no_filter F t : no_rare_filter F = true -> opens F t = true.
Proof. intros H. unfold opens. by rewrite H. Qed.

Lemma opens_filter s t :
  no_rare_filter (Some s) = false -> opens (Some s) t = bool_decide (pt_text t ∈ s).
Proof. intros H. unfold opens. rewrite H. done. Qed.

(* ------------------------------------------------------------------ *)
(** ** Claims on the Proper-Name Span Extractor *)

(** C1 (counterexample): a configured but empty filter set does not stop a
    proper noun outside the set from opening a span ([not self.rare_names]
    holds for the empty set), and a run reaching the end of the token list
    ("Alice Smith" alone) yields no span. *)
Lemma C1_counterexample :
  Some (∅ : gset string) <> None /\ ("Bob" ∉ (∅ : gset string)) /\
  get_proper_names (Some ∅) bob_said = [(0, 3)] /\
  get_proper_names (Some {["Alice"]}) alice_smith = [].
Proof.
  split; [done|]. split; [set_solver|]. split; vm_compute; reflexivity.
Qed.

(** C1 (amended): outside a span, a non-proper noun changes nothing and a
    proper noun opens a span, at its own offsets, exactly when the filter
    set is absent or empty or contains the token's text; inside a span,
    every proper noun extends the end, whatever the filter. With filter
    {"Alice"}, "Alice Smith said" yields the one span (0,11) over both
    names and "Bob Smith said" yields none. *)
Theorem C1_span_opening :
  (forall F st t, g_is_middle st = false -> is_propn t = false ->
     gpn_step F st t = st) /\
  (forall F st t, g_is_middle st = false -> is_propn t = true ->
     (g_is_middle (gpn_step F st t) = true <->
        F = None \/ F = Some ∅ \/ exists s, F = Some s /\ pt_text t ∈ s) /\
     (g_is_middle (gpn_step F st t) = true ->
        gpn_step F st t = mkGpn (g_names st) (pt_start t) (pt_end t) true) /\
     (g_is_middle (gpn_step F st t) = false -> gpn_step F st t = st)) /\
  (forall F st t, g_is_middle st = true -> is_propn t = true ->
     gpn_step F st t = mkGpn (g_names st) (g_start st) (pt_end t) true) /\
  get_proper_names (Some {["Alice"]}) alice_smith_said = [(0, 11)] /\
  get_proper_names (Some {["Alice"]}) bob_smith_said = [].
Proof.
  split; [|split; [|split; [|split; vm_compute; reflexivity]]].
  - intros F [names s e mid] t Hm Ht. simpl in Hm; subst mid.
    unfold gpn_step. by rewrite Ht.
  - intros F [names s e mid] t Hm Ht. simpl in Hm; subst mid.
    unfold gpn_step. rewrite Ht. simpl.
    destruct (opens F t) eqn:Hop; simpl; (split; [|split; [done|done]]).
    + split; [intros _|done].
      destruct F as [s'|]; [|by left]. right.
      unfold opens, no_rare_filter, in_rare in Hop.
      apply orb_true_iff in Hop as [H|H]; apply bool_decide_eq_true in H;
        [left; by subst|right; eauto].
    + split; [done|]. intros H. exfalso.
      unfold opens, no_rare_filter, in_rare in Hop.
      apply orb_false_iff in Hop as [H1 H2].
      destruct H as [->|[->|(s' & -> & Hs)]]; [done| |].
      * by rewrite bool_decide_eq_false in H1.
      * by rewrite bool_decide_eq_false in H2.
  - intros F [names s e mid] t Hm Ht. simpl in Hm; subst mid.
    unfold gpn_step. by rewrite Ht.
Qed.

Lemma C1_span_opening_witness :
  g_is_middle gpn_init = false /\ is_propn (tag "Alice" "PROPN" 0 5) = true /\
  g_is_middle (gpn_step (Some {["Alice"]}) gpn_init (tag "Alice" "PROPN" 0 5)) = true.
Proof.
  split; [reflexivity|]. split; [reflexivity|].
  apply (proj1 (proj1 (proj2 C1_span_opening) (Some {["Alice"]}) gpn_init
                  (tag "Alice" "PROPN" 0 5) eq_refl eq_refl)).
  right; right. exists {["Alice"]}. split; [reflexivity|set_solver].
Defined.

(** C2: a run of proper nouns that reaches the last token of the list is
    never flushed: the output is the output for the tokens before the run,
    whatever precedes the run and whether the run opened a span. *)
Theorem C2_trailing_run_dropped (F : option (gset string))
    (pre run : list PosTag) :
  Forall (fun t => is_propn t = true) run ->
  get_proper_names F (pre ++ run) = get_proper_names F pre.
Proof.
  intros Hrun. unfold get_proper_names, gpn_loop.
  rewrite fold_left_app. by apply gpn_propn_names.
Qed.

Lemma C2_trailing_run_dropped_witness :
  Forall (fun t => is_propn t = true) alice_smith /\
  get_proper_names None ([] ++ alice_smith) = [] /\
  get_proper_names (Some {["Alice"]}) ([] ++ alice_smith) = [].
Proof.
  assert (Hrun : Forall (fun t => is_propn t = true) alice_smith)
    by (repeat constructor).
  split; [exact Hrun|]. split.
  - rewrite (C2_trailing_run_dropped None [] alice_smith); [reflexivity|exact Hrun].
  - rewrite (C2_trailing_run_dropped (Some {["Alice"]}) [] alice_smith);
      [reflexivity|exact Hrun].
Defined.

(** C3: if the tokens' [start, end) spans are pairwise disjoint and listed by
    increasing start, every output span is the span of one maximal run of
    proper nouns (preceded by the start or a non-proper noun, followed by a
    non-proper noun), or, with a filter set, of the suffix of that run that
    begins at its first token in the set; the output spans are pairwise
    disjoint and listed by strictly increasing start. *)
Theorem C3_spans_are_sorted_runs (F : option (gset string)) (ts : list PosTag) :
  StronglySorted tok_before ts ->
  StronglySorted span_before (get_proper_names F ts) /\
  forall sp, sp ∈ get_proper_names F ts ->
    exists pre skipped ta rest tnon post,
      ts = pre ++ skipped ++ ta :: rest ++ tnon :: post /\
      run_boundary pre /\
      Forall (fun t => is_propn t = true) (skipped ++ ta :: rest) /\
      is_propn tnon = false /\
      sp = (pt_start ta, pt_end (List.last (ta :: rest) ta)) /\
      (skipped = [] \/
       exists s, F = Some s /\ pt_text ta ∈ s /\
                 Forall (fun t => pt_text t ∉ s) skipped).
Proof.
  intros Hts. destruct (gpn_inv_loop F ts Hts) as (Hsort & Hclosed & _).
  split; [exact Hsort|]. intros sp Hsp.
  destruct (Hclosed sp Hsp)
    as (pre & sk & ta & rest & tnon & post & Heq & Hpre & Hsk & Hta & Hop & Hrest & Htnon & Hsp').
  exists pre, sk, ta, rest, tnon, post.
  split; [done|]. split; [done|].
  split.
  { apply Forall_app. split; [|by constructor].
    eapply Forall_impl; [exact Hsk|]. by intros t [? ?]. }
  split; [done|]. split; [done|].
  destruct (no_rare_filter F) eqn:Hnf.
  - left. destruct sk as [|t sk]; [done|].
    apply Forall_cons in Hsk as [[_ Ht] _].
    by rewrite (opens_no_filter F t Hnf) in Ht.
  - destruct F as [s|]; [|done]. right. exists s.
    split; [done|]. rewrite (opens_filter s ta Hnf) in Hop.
    split; [by apply bool_decide_eq_true in Hop|].
    eapply Forall_impl; [exact Hsk|]. intros t [_ Ht].
    rewrite (opens_filter s t Hnf) in Ht. by apply bool_decide_eq_false in Ht.
Qed.

Lemma C3_spans_are_sorted_runs_witness :
  StronglySorted tok_before mixed_tags /\
  get_proper_names (Some {["Alice"]}) mixed_tags = [(14, 25)] /\
  StronglySorted span_before (get_proper_names (Some {["Alice"]}) mixed_tags).
Proof.
  assert (Hs : StronglySorted tok_before mixed_tags).
  { unfold mixed_tags, tag.
    repeat (apply SSorted_cons; [|repeat constructor; unfold tok_before; simpl; lia]).
    constructor. }
  split; [exact Hs|]. split; [vm_compute; reflexivity|].
  exact (proj1 (C3_spans_are_sorted_runs (Some {["Alice"]}) mixed_tags Hs)).
Defined.

Lemma gpn_step_empty_filter st t :
  gpn_step (Some ∅) st t = gpn_step None st t.
Proof. unfold gpn_step. by rewrite !(opens_no_filter _ t). Qed.

Lemma gpn_loop_empty_filter st ts :
  gpn_loop (Some ∅) st ts = gpn_loop None st ts.
Proof.
  unfold gpn_loop. revert st.
  induction ts as [|t ts IH]; intros st; [done|]. simpl.
  rewrite gpn_step_empty_filter. apply IH.
Qed.

(** C10: when every word of the summed counter has a count at or above the
    threshold, the derived rare-name set is empty; and a reader whose
    rare-name set is empty extracts exactly the spans of a reader built
    without a counters file. *)
Theorem C10_empty_rare_set_acts_as_absent :
  (forall (counters : Counters) (threshold : Z),
     (forall w n, counter_add (c_context counters) (c_caption counters) !! w = Some n ->
                  threshold <= n) ->
     rare_names_of counters threshold = ∅) /\
  (forall (counters : Counters) (threshold : Z) (ts : list PosTag),
     rare_names_of counters threshold = ∅ ->
     get_proper_names (init_rare_names (Some counters) threshold) ts =
     get_proper_names (init_rare_names None threshold) ts).
Proof.
  split.
  - intros counters threshold Hge. unfold rare_names_of.
    apply dom_empty_iff_L. apply map_eq. intros w.
    rewrite lookup_empty. apply map_lookup_filter_None. right.
    intros n Hn. simpl. specialize (Hge w n Hn). lia.
  - intros counters threshold ts Hempty. simpl. rewrite Hempty.
    unfold get_proper_names. by rewrite gpn_loop_empty_filter.
Qed.

Lemma C10_empty_rare_set_acts_as_absent_witness :
  rare_names_of ex_counters 10 = ∅ /\
  get_proper_names (init_rare_names (Some ex_counters) 10) bob_smith_said = [(0, 9)].
Proof.
  assert (He : rare_names_of ex_counters 10 = ∅).
  { apply (proj1 C10_empty_rare_set_acts_as_absent).
    intros w n Hn. unfold ex_counters, counter_add in Hn. simpl in Hn.
    apply map_lookup_filter_Some in Hn as [Hn _].
    apply lookup_union_with_Some in Hn.
    rewrite !lookup_insert, !lookup_singleton in Hn.
    destruct Hn as [(H1 & H2)|[(H1 & H2)|(x & y & H1 & H2 & H3)]];
      repeat case_decide; simplify_eq; lia. }
  split; [exact He|].
  rewrite (proj2 C10_empty_rare_set_acts_as_absent ex_counters 10 bob_smith_said He).
  vm_compute. reflexivity.
Defined.

(* ------------------------------------------------------------------ *)
(** ** Claims on the Offset Flattener *)

Lemma spec_offset_cons p ps i :
  spec_offset (p :: ps) (S i) = Z.of_nat (String.length p) + 1 + spec_offset ps i.
Proof.
  induction i as [|i IH]; simpl in *; [lia|].
  rewrite IH. lia.
Qed.

Lemma flatten_loop_spec off ps idx :
  flatten_loop off ps idx =
  concat (imap (fun i idx_list =>
                  map (fun sp => (sp.1 + (off + spec_offset ps i),
                                  sp.2 + (off + spec_offset ps i))) idx_list)
               (take (length ps) idx)).
Proof.
  revert off idx. induction ps as [|p ps IH]; intros off idx; [done|].
  destruct idx as [|l idx]; [done|].
  cbn -[spec_offset]. f_equal.
  - apply map_ext. intros [s e]. simpl. f_equal; lia.
  - rewrite IH. f_equal. apply imap_ext. intros i l' _.
    apply map_ext. intros [s e]. cbn -[spec_offset].
    rewrite spec_offset_cons. f_equal; lia.
Qed.

(** C4: [_flatten_name_indices] shifts each local span of paragraph [i] by
    [offset_i], with [offset_0 = 0] and
    [offset_(i+1) = offset_i + len(paragraph_i) + 1], keeping the order of
    the spans; on ["Hello"; "World"], [(0,5)] in paragraph 0 stays [(0,5)]
    and [(0,5)] in paragraph 1 becomes [(6,11)]. *)
Theorem C4_flatten_offsets :
  (forall (paragraphs : list string) (indices : list (list Span)),
     flatten_name_indices paragraphs indices = spec_flatten paragraphs indices) /\
  flatten_name_indices ["Hello"; "World"] [[(0, 5)]; []] = [(0, 5)] /\
  flatten_name_indices ["Hello"; "World"] [[]; [(0, 5)]] = [(6, 11)].
Proof.
  split; [|split; reflexivity].
  intros paragraphs indices. unfold flatten_name_indices, spec_flatten.
  by rewrite flatten_loop_spec.
Qed.

(* ------------------------------------------------------------------ *)
(** ** The expansion loop *)

Section Expansion.

Variable count_tokens : string -> nat.
Variable rare_names : option (gset string).
Variable sections : list Sec.
Variable k : Z.

Local Abbreviation body := (loop_body count_tokens rare_names sections k).
Local Abbreviation run := (expand count_tokens rare_names sections k).
Local Abbreviation len := (Z.of_nat (length sections)).

Lemma loop_body_i w : w_i (body w) = w_i w - 1.
Proof.
  unfold loop_body. repeat case_match; reflexivity.
Qed.

Lemma loop_body_j w : w_j (body w) = w_j w + 1.
Proof.
  unfold loop_body. repeat case_match; reflexivity.
Qed.

Lemma loop_exit_false w :
  loop_exit sections k w = false -> w_n_words w < 510 /\ (k < w_i w \/ w_j w < len).
Proof.
  unfold loop_exit. intros H. apply orb_false_iff in H as [H1 H2].
  apply Z.leb_gt in H1. split; [done|].
  apply andb_false_iff in H2 as [H2|H2]; apply Z.leb_gt in H2; lia.
Qed.

(** Each iteration moves [i] down and [j] up by one, so the loop exits at
    the latest when both have left [k < i] and [j < len(sections)]. *)
Lemma expand_some (fuel : nat) w :
  (1 <= fuel)%nat -> w_i w - k <= Z.of_nat fuel -> len - w_j w <= Z.of_nat fuel ->
  exists w', run fuel w = Some w'.
Proof.
  revert w. induction fuel as [|fuel IH]; intros w H1 Hi Hj; [lia|].
  simpl. destruct (loop_exit sections k (body w)) eqn:Hex; [eauto|].
  apply loop_exit_false in Hex as [_ Hex].
  rewrite loop_body_i, loop_body_j in Hex.
  apply IH; rewrite ?loop_body_i, ?loop_body_j; lia.
Qed.

Lemma expand_mono (fuel fuel' : nat) w w' :
  run fuel w = Some w' -> (fuel <= fuel')%nat -> run fuel' w = Some w'.
Proof.
  revert fuel' w. induction fuel as [|fuel IH]; intros fuel' w Hrun Hle; [done|].
  destruct fuel' as [|fuel']; [lia|]. simpl in *.
  destruct (loop_exit sections k (body w)); [done|].
  apply IH; [done|lia].
Qed.

(** The iteration at which the loop exits started from the loop's initial
    state or from a state whose count was below 510. *)
Lemma expand_last (fuel : nat) w w' :
  run fuel w = Some w' ->
  exists wp, (wp = w \/ w_n_words wp < 510) /\ w' = body wp.
Proof.
  revert w. induction fuel as [|fuel IH]; intros w Hrun; [done|].
  simpl in Hrun. destruct (loop_exit sections k (body w)) eqn:Hex.
  - injection Hrun as <-. eauto.
  - destruct (IH _ Hrun) as (wp & Hwp & ->). exists wp. split; [|done].
    right. destruct Hwp as [->|Hwp]; [|done].
    by apply loop_exit_false in Hex as [? _].
Qed.

End Expansion.

Lemma anchor_search_bounds k0 secs :
  secs <> [] -> k0 <= (anchor_search k0 secs).1 < k0 + Z.of_nat (length secs).
Proof.
  revert k0. induction secs as [|s secs IH]; intros k0 Hne; [done|].
  simpl. destruct (is_paragraph s); simpl; [lia|].
  destruct secs as [|s' secs]; simpl; [lia|].
  specialize (IH (k0 + 1) ltac:(done)). simpl in IH. lia.
Qed.

(* ------------------------------------------------------------------ *)
(** ** Claims on the Context Window Builder *)

(** C9: for every non-empty section list and image position (an index of
    the list, as [sections[pos]] has succeeded before), the anchor search
    stops at an index of the list, paragraph or not, and the expansion
    loop exits within [len(sections)] iterations, with the same result for
    any larger iteration budget; so [build_window] never reports a loop
    that did not exit. *)
Theorem C9_loops_bounded (count_tokens : string -> nat)
    (rare_names : option (gset string)) (sections : list Sec) (pos : nat)
    (paragraphs : list string) (paragraph_names : list (list Span)) (n_words : Z) :
  (pos < length sections)%nat ->
  0 <= (anchor_search 0 sections).1 < Z.of_nat (length sections) /\
  (exists w, forall fuel, (length sections <= fuel)%nat ->
     expand count_tokens rare_names sections (anchor_search 0 sections).1 fuel
       (mkWin [] [] [] [] n_words (Z.of_nat pos - 1) (Z.of_nat pos + 1)) = Some w) /\
  build_window count_tokens rare_names sections pos paragraphs paragraph_names n_words
    <> None.
Proof.
  intros Hpos.
  assert (Hk : 0 <= (anchor_search 0 sections).1 < Z.of_nat (length sections)).
  { pose proof (anchor_search_bounds 0 sections) as H.
    destruct sections; simpl in *; [lia|]. apply H. done. }
  destruct (expand_some count_tokens rare_names sections (anchor_search 0 sections).1
              (length sections) (mkWin [] [] [] [] n_words (Z.of_nat pos - 1) (Z.of_nat pos + 1)))
    as [w Hw]; simpl; [lia|lia|lia|].
  split; [done|]. split.
  - exists w. intros fuel Hf. by apply (expand_mono _ _ _ _ (length sections)).
  - unfold build_window. destruct (anchor_search 0 sections) as [k anchor].
    simpl in Hw. rewrite Hw. by destruct anchor.
Qed.

Lemma C9_loops_bounded_witness :
  (0 < length no_par_sections)%nat /\
  anchor_search 0 no_par_sections = (1, None) /\
  build_window (fun _ => 1%nat) None no_par_sections 0 [] [] 0 <> None.
Proof.
  split; [simpl; lia|]. split; [reflexivity|].
  apply (C9_loops_bounded (fun _ => 1%nat) None no_par_sections 0 [] [] 0).
  simpl; lia.
Defined.

Lemma sec_at_paragraph_in sections i :
  is_paragraph (sec_at sections i) = true -> sec_at sections i ∈ sections.
Proof.
  unfold sec_at. intros H.
  destruct (decide (Z.to_nat i < length sections)%nat) as [Hlt|Hge].
  - apply list_elem_of_In. by apply nth_In.
  - rewrite nth_overflow in H |- *; [done|lia|lia].
Qed.

Lemma loop_body_count count_tokens rare_names sections k w :
  exists d1 d2,
    w_n_words (loop_body count_tokens rare_names sections k w) = w_n_words w + d1 + d2 /\
    (d1 = 0 \/ exists s, s ∈ sections /\ is_paragraph s = true /\
                         d1 = Z.of_nat (count_tokens (sec_text s))) /\
    (d2 = 0 \/ exists s, s ∈ sections /\ is_paragraph s = true /\
                         d2 = Z.of_nat (count_tokens (sec_text s))).
Proof.
  set (si := sec_at sections (w_i w)). set (sj := sec_at sections (w_j w)).
  exists (if (k <? w_i w) && is_paragraph si
          then Z.of_nat (count_tokens (sec_text si)) else 0).
  exists (if (k <? w_j w) && (w_j w <? Z.of_nat (length sections)) && is_paragraph sj
          then Z.of_nat (count_tokens (sec_text sj)) else 0).
  assert (Hin : forall s, s = si \/ s = sj -> is_paragraph s = true -> s ∈ sections).
  { intros s [->| ->]; apply sec_at_paragraph_in. }
  unfold loop_body. fold si. simpl. fold sj.
  destruct ((k <? w_i w) && is_paragraph si) eqn:H1; simpl; fold sj;
  destruct ((k <? w_j w) && (w_j w <? Z.of_nat (length sections)) && is_paragraph sj) eqn:H2;
  simpl; (split; [lia|]);
  repeat match goal with
  | H : _ && _ = true |- _ => apply andb_true_iff in H as [? ?]
  end;
  split;
  first [ left; reflexivity
        | right; exists si; split; [apply Hin; [left; reflexivity|assumption]|
                                   split; [assumption|reflexivity]]
        | right; exists sj; split; [apply Hin; [right; reflexivity|assumption]|
                                   split; [assumption|reflexivity]] ].
Qed.

(** C6 (counterexample): with every section counting 200 tokens, the image
    at position 3 of [A, B1, B2, <image>, C1, C2] makes the loop add B2 and
    C1 (total 400), then B1 and C2 in the same iteration: the final count
    800 exceeds 510 by 290, more than one paragraph (200 tokens). *)
Lemma C6_counterexample :
  Forall (fun s => Z.of_nat ((fun _ : string => 200%nat) (sec_text s)) = 200) six_sections /\
  match build_window (fun _ => 200%nat) None six_sections 3 [] [] 0 with
  | Some (_, _, _, w) => w_n_words w = 800 /\ w_before w = ["B1"; "B2"] /\ w_after w = ["C1"; "C2"]
  | None => False
  end /\
  800 - 510 > 200.
Proof.
  split; [repeat constructor|]. split; [vm_compute; auto|lia].
Qed.

(** C6 (amended): the final running count is the count before the last
    loop iteration plus the token counts of at most two paragraphs of the
    article (one taken backward and one forward in that iteration), and
    the count before that iteration is below 510 unless that iteration was
    the first one (the count then being the headline's). The loop thus
    stops right after the iteration that reaches 510, but may end up to
    two paragraphs' worth of tokens over the budget. *)
Theorem C6_budget_overshoot (count_tokens : string -> nat)
    (rare_names : option (gset string)) (sections : list Sec) (pos : nat)
    (paragraphs paragraphs' : list string)
    (paragraph_names paragraph_names' : list (list Span))
    (n_words k : Z) (w : Window) :
  build_window count_tokens rare_names sections pos paragraphs paragraph_names n_words
    = Some (paragraphs', paragraph_names', k, w) ->
  exists n_prev d1 d2,
    w_n_words w = n_prev + d1 + d2 /\
    (n_prev < 510 \/ n_prev = n_words) /\
    (d1 = 0 \/ exists s, s ∈ sections /\ is_paragraph s = true /\
                         d1 = Z.of_nat (count_tokens (sec_text s))) /\
    (d2 = 0 \/ exists s, s ∈ sections /\ is_paragraph s = true /\
                         d2 = Z.of_nat (count_tokens (sec_text s))).
Proof.
  unfold build_window. destruct (anchor_search 0 sections) as [k0 anchor].
  destruct anchor as [s|];
  destruct (expand count_tokens rare_names sections k0 (length sections) _) as [w'|] eqn:Hrun;
  intros H; try discriminate; injection H as <- <- <- <-;
  destruct (expand_last _ _ _ _ _ _ _ Hrun) as (wp & Hwp & ->);
  destruct (loop_body_count count_tokens rare_names sections k0 wp) as (d1 & d2 & Hn & Hd1 & Hd2);
  exists (w_n_words wp), d1, d2; (split; [done|]); (split; [|done]);
  (destruct Hwp as [->|Hwp]; [by right|by left]).
Qed.

Lemma C6_budget_overshoot_witness :
  exists w, build_window (fun _ => 200%nat) None six_sections 3 [] [] 0
              = Some ([sec_text (par "A")], [[]], 0, w) /\
            exists n_prev d1 d2, w_n_words w = n_prev + d1 + d2 /\ (n_prev < 510 \/ n_prev = 0).
Proof.
  eexists. split; [vm_compute; reflexivity|].
  destruct (C6_budget_overshoot (fun _ => 200%nat) None six_sections 3 [] [sec_text (par "A")]
              [] [[]] 0 0 _ ltac:(vm_compute; reflexivity))
    as (n_prev & d1 & d2 & Hn & Hp & _).
  exists n_prev, d1, d2. split; [exact Hn|exact Hp].
Defined.

(** C5 (code as written): the anchor paragraph is inserted into the context
    but its tokens are never added to [n_words]: for the article
    [Anchor, <image>] without headline, the window holds "Anchor"
    (6 tokens when each character is a token) and the count stays 0. *)
Lemma C5_anchor_not_counted :
  build_window (fun s => String.length s) None anchor_sections 1 [] [] 0
    = Some (["Anchor"], [[]], 0, mkWin [] [] [] [] 0 (-1) 3) /\
  String.length "Anchor" = 6%nat.
Proof. split; vm_compute; reflexivity. Qed.

(* ------------------------------------------------------------------ *)
(** ** Order of the context paragraphs *)

Lemma sec_at_lookup sections i :
  0 <= i < Z.of_nat (length sections) -> sections !! Z.to_nat i = Some (sec_at sections i).
Proof.
  intros Hi. unfold sec_at.
  destruct (nth_lookup_or_length sections (Z.to_nat i) no_sec) as [H|H]; [done|lia].
Qed.

Lemma sec_slice_snoc sections lo hi :
  0 <= lo <= hi -> hi < Z.of_nat (length sections) ->
  sec_slice sections lo (hi + 1) = sec_slice sections lo hi ++ [sec_at sections hi].
Proof.
  intros Hlo Hhi. unfold sec_slice.
  replace (Z.to_nat (hi + 1)) with (S (Z.to_nat hi)) by lia.
  rewrite (take_S_r _ _ (sec_at sections hi)); [|apply sec_at_lookup; lia].
  apply drop_app_le. rewrite length_take. lia.
Qed.

Lemma sec_slice_cons sections lo hi :
  0 <= lo < hi -> lo < Z.of_nat (length sections) ->
  sec_slice sections lo hi = sec_at sections lo :: sec_slice sections (lo + 1) hi.
Proof.
  intros Hlo Hlen. unfold sec_slice.
  replace (Z.to_nat (lo + 1)) with (S (Z.to_nat lo)) by lia.
  apply drop_S. rewrite lookup_take. case_decide; [|lia].
  apply sec_at_lookup. lia.
Qed.

Lemma sec_slice_empty sections lo hi :
  hi <= lo -> sec_slice sections lo hi = [].
Proof.
  intros H. unfold sec_slice. apply drop_ge. rewrite length_take. lia.
Qed.

Lemma sec_slice_sat sections lo hi :
  Z.of_nat (length sections) <= hi -> sec_slice sections lo (hi + 1) = sec_slice sections lo hi.
Proof.
  intros H. unfold sec_slice. rewrite !take_ge; [done|lia|lia].
Qed.

Lemma par_texts_snoc sections lo hi :
  0 <= lo <= hi -> hi < Z.of_nat (length sections) ->
  par_texts sections lo (hi + 1) =
  par_texts sections lo hi ++
  (if is_paragraph (sec_at sections hi) then [sec_text (sec_at sections hi)] else []).
Proof.
  intros H1 H2. unfold par_texts. rewrite sec_slice_snoc by done.
  rewrite List.filter_app, map_app. simpl. by destruct (is_paragraph _).
Qed.

Lemma par_texts_cons sections lo hi :
  0 <= lo < hi -> lo < Z.of_nat (length sections) ->
  par_texts sections lo hi =
  (if is_paragraph (sec_at sections lo) then [sec_text (sec_at sections lo)] else []) ++
  par_texts sections (lo + 1) hi.
Proof.
  intros H1 H2. unfold par_texts. rewrite sec_slice_cons by done.
  simpl. by destruct (is_paragraph _).
Qed.

Lemma par_texts_empty sections lo hi : hi <= lo -> par_texts sections lo hi = [].
Proof. intros H. unfold par_texts. by rewrite sec_slice_empty. Qed.

Lemma par_texts_sat sections lo hi :
  Z.of_nat (length sections) <= hi -> par_texts sections lo (hi + 1) = par_texts sections lo hi.
Proof. intros H. unfold par_texts. by rewrite sec_slice_sat. Qed.

Lemma before_step sections k pos i :
  0 <= k -> i < pos -> pos <= Z.of_nat (length sections) ->
  par_texts sections (Z.max (i - 1 + 1) (k + 1)) pos =
  (if (k <? i) && is_paragraph (sec_at sections i)
   then [sec_text (sec_at sections i)] else []) ++
  par_texts sections (Z.max (i + 1) (k + 1)) pos.
Proof.
  intros Hk Hi Hpos. replace (i - 1 + 1) with i by lia.
  destruct (k <? i) eqn:Hki; simpl.
  - apply Z.ltb_lt in Hki.
    replace (Z.max i (k + 1)) with i by lia. replace (Z.max (i + 1) (k + 1)) with (i + 1) by lia.
    rewrite (par_texts_cons sections i pos) by lia. by destruct (is_paragraph _).
  - apply Z.ltb_ge in Hki.
    replace (Z.max i (k + 1)) with (k + 1) by lia.
    by replace (Z.max (i + 1) (k + 1)) with (k + 1) by lia.
Qed.

Lemma after_step sections k pos j :
  0 <= k -> 0 <= pos < j ->
  par_texts sections (Z.max (pos + 1) (k + 1)) (j + 1) =
  par_texts sections (Z.max (pos + 1) (k + 1)) j ++
  (if (k <? j) && (j <? Z.of_nat (length sections)) && is_paragraph (sec_at sections j)
   then [sec_text (sec_at sections j)] else []).
Proof.
  intros Hk Hj. destruct (k <? j) eqn:Hkj; simpl.
  - apply Z.ltb_lt in Hkj. destruct (j <? Z.of_nat (length sections)) eqn:Hjl; simpl.
    + apply Z.ltb_lt in Hjl. rewrite par_texts_snoc by lia. by destruct (is_paragraph _).
    + apply Z.ltb_ge in Hjl. rewrite par_texts_sat by done. by rewrite app_nil_r.
  - apply Z.ltb_ge in Hkj. rewrite !par_texts_empty by lia. done.
Qed.

Lemma loop_body_inv count_tokens rare_names sections k pos w :
  0 <= k -> 0 <= pos < Z.of_nat (length sections) ->
  win_inv sections k pos w ->
  win_inv sections k pos (loop_body count_tokens rare_names sections k w).
Proof.
  intros Hk Hpos. destruct w as [b bn a an n i j].
  intros (Hb & Ha & Hij). simpl in *.
  pose proof (before_step sections k pos i Hk ltac:(lia) ltac:(lia)) as Hbs.
  pose proof (after_step sections k pos j Hk ltac:(lia)) as Has.
  unfold loop_body, win_inv; simpl.
  destruct ((k <? i) && is_paragraph (sec_at sections i)); simpl;
  destruct ((k <? j) && (j <? Z.of_nat (length sections)) && is_paragraph (sec_at sections j));
  simpl in *; (split; [rewrite Hbs, Hb; done|]); (split; [rewrite Has, Ha; try done|lia]);
  by rewrite app_nil_r.
Qed.

Lemma expand_inv count_tokens rare_names sections k pos fuel w w' :
  0 <= k -> 0 <= pos < Z.of_nat (length sections) ->
  win_inv sections k pos w ->
  expand count_tokens rare_names sections k fuel w = Some w' ->
  win_inv sections k pos w'.
Proof.
  intros Hk Hpos. revert w. induction fuel as [|fuel IH]; intros w Hw Hrun; [done|].
  simpl in Hrun. pose proof (loop_body_inv count_tokens rare_names sections k pos w Hk Hpos Hw).
  destruct (loop_exit _ _ _); [by injection Hrun as <-|by eapply IH].
Qed.

Lemma anchor_search_first k0 secs :
  match (anchor_search k0 secs).2 with
  | Some s => exists pre post, secs = pre ++ s :: post /\
                Forall (fun t => is_paragraph t = false) pre /\ is_paragraph s = true /\
                (anchor_search k0 secs).1 = k0 + Z.of_nat (length pre)
  | None => Forall (fun t => is_paragraph t = false) secs
  end.
Proof.
  revert k0. induction secs as [|s secs IH]; intros k0; simpl; [constructor|].
  destruct (is_paragraph s) eqn:Hs; simpl.
  - exists [], secs. split; [done|]. split; [constructor|]. split; [done|]. simpl. lia.
  - specialize (IH (k0 + 1)). destruct (anchor_search (k0 + 1) secs) as [k1 [t|]]; simpl in *.
    + destruct IH as (pre & post & -> & Hpre & Ht & Hk1).
      exists (s :: pre), post. split; [done|]. split; [by constructor|].
      split; [done|]. simpl. lia.
    + by constructor.
Qed.

(** C7: for every yielded instance, the context paragraphs are the title
    (when the stripped headline is non-empty), then the anchor, which is
    the first paragraph section of the article (absent when there is
    none), then the paragraph sections of one slice of the article
    before the image and after the anchor, in article order, then those of
    one slice after the image and after the anchor, in article order. *)
Theorem C7_context_order (count_tokens : string -> nat) (Image : Type)
    (open_image : string -> option Image) (rare_names : option (gset string))
    (image_dir : string) (art : Article) (pos : nat) (a : InstanceArgs Image) :
  read_pos count_tokens Image open_image rare_names image_dir art pos = @Yield Image a ->
  let sections := art_sections art in
  let title := title_of (art_headline art) in
  let k := (anchor_search 0 sections).1 in
  match (anchor_search 0 sections).2 with
  | Some s => exists pre post, sections = pre ++ s :: post /\
                Forall (fun t => is_paragraph t = false) pre /\
                is_paragraph s = true /\ k = Z.of_nat (length pre)
  | None => Forall (fun t => is_paragraph t = false) sections
  end /\
  exists i_end j_end, i_end < Z.of_nat pos < j_end /\
    @ia_paragraphs Image a =
      (if String.eqb title "" then [] else [title]) ++
      match (anchor_search 0 sections).2 with
      | Some s => [sec_text s]
      | None => []
      end ++
      par_texts sections (Z.max (i_end + 1) (k + 1)) (Z.of_nat pos) ++
      par_texts sections (Z.max (Z.of_nat pos + 1) (k + 1)) j_end.
Proof.
  intros H sections title k.
  pose proof (anchor_search_first 0 sections) as Hfirst.
  unfold read_pos in H. fold sections in H.
  destruct (headline_part count_tokens rare_names (art_headline art)) as [[ps0 pn0] n0] eqn:Hh.
  destruct (nth_error sections pos) as [cap|] eqn:Hcap; [|discriminate].
  assert (Hpos : (pos < length sections)%nat) by (apply nth_error_Some; congruence).
  destruct (String.eqb (strip (sec_text cap)) ""); [discriminate|].
  destruct (build_window count_tokens rare_names sections pos ps0 pn0 n0)
    as [[[[ps1 pn1] k1] w]|] eqn:Hbw; [|discriminate].
  destruct (open_image _); [|discriminate]. injection H as <-. simpl.
  assert (Hk : 0 <= k < Z.of_nat (length sections)).
  { pose proof (anchor_search_bounds 0 sections) as Hb. unfold k.
    destruct sections; simpl in *; [lia|]. apply Hb. done. }
  unfold build_window in Hbw. unfold k in *.
  destruct (anchor_search 0 sections) as [k0 anchor] eqn:Ha. simpl in *.
  split; [destruct anchor; simpl in *; try rewrite Z.add_0_l in Hfirst; done|].
  set (w0 := mkWin [] [] [] [] n0 (Z.of_nat pos - 1) (Z.of_nat pos + 1)).
  fold w0 in Hbw.
  destruct (expand count_tokens rare_names sections k0 (length sections) w0) as [w'|] eqn:Hrun;
    [|by destruct anchor].
  assert (Hinv0 : win_inv sections k0 (Z.of_nat pos) w0).
  { unfold win_inv, w0; simpl. rewrite !par_texts_empty by lia. split; [done|]. split; [done|]. lia. }
  pose proof (expand_inv count_tokens rare_names sections k0 (Z.of_nat pos) _ _ _
                ltac:(lia) ltac:(lia) Hinv0 Hrun) as (Hb & Haf & Hij).
  exists (w_i w'), (w_j w'). split; [lia|].
  assert (Hps0 : ps0 = if String.eqb title "" then [] else [title]).
  { unfold headline_part in Hh. fold title in Hh.
    destruct (String.eqb title ""); simpl in Hh; congruence. }
  destruct anchor as [s|]; injection Hbw as <- <- <- <-;
    rewrite Hb, Haf, Hps0; by rewrite <- ?app_assoc.
Qed.

Lemma C7_context_order_witness :
  read_pos (fun s => String.length s) unit (fun _ => Some tt) None "/images"
           x_dies_article 1 =
  Yield unit (mkArgs unit ["X dies"; "A"; "B"] [] [] tt "cap" "/images/h1.jpg"
                     "https://example.com/x" 1) /\
  exists i_end j_end, i_end < 1 < j_end /\
    ["X dies"; "A"; "B"] =
      ["X dies"] ++ ["A"] ++
      par_texts [par "A"; img "cap" "h1"; par "B"] (Z.max (i_end + 1) 1) 1 ++
      par_texts [par "A"; img "cap" "h1"; par "B"] (Z.max 2 1) j_end.
Proof.
  assert (H : read_pos (fun s => String.length s) unit (fun _ => Some tt) None "/images"
           x_dies_article 1 =
          Yield unit (mkArgs unit ["X dies"; "A"; "B"] [] [] tt "cap" "/images/h1.jpg"
                             "https://example.com/x" 1)) by (vm_compute; reflexivity).
  split; [exact H|].
  destruct (C7_context_order _ _ _ _ _ _ _ _ H) as [_ (i_end & j_end & Hij & Hps)].
  exists i_end, j_end. split; [exact Hij|]. exact Hps.
Defined.

(* ------------------------------------------------------------------ *)
(** ** Skipping images that cannot be opened *)

Lemma build_window_exits count_tokens rare_names sections pos paragraphs paragraph_names n_words :
  (pos < length sections)%nat ->
  build_window count_tokens rare_names sections pos paragraphs paragraph_names n_words <> None.
Proof.
  intros Hpos.
  assert (Hk : 0 <= (anchor_search 0 sections).1 < Z.of_nat (length sections)).
  { pose proof (anchor_search_bounds 0 sections) as H.
    destruct sections; simpl in *; [lia|]. apply H. done. }
  unfold build_window. destruct (anchor_search 0 sections) as [k anchor]. simpl in Hk.
  destruct (expand_some count_tokens rare_names sections k (length sections)
              (mkWin [] [] [] [] n_words (Z.of_nat pos - 1) (Z.of_nat pos + 1)))
    as [w Hw]; simpl; [lia|lia|lia|].
  rewrite Hw. by destruct anchor.
Qed.

Lemma read_pos_no_image count_tokens Image open_image rare_names image_dir art pos cap :
  nth_error (art_sections art) pos = Some cap ->
  open_image (path_join image_dir (sec_hash cap ++ ".jpg")) = None ->
  read_pos count_tokens Image open_image rare_names image_dir art pos = Continue Image.
Proof.
  intros Hcap Himg. unfold read_pos.
  destruct (headline_part count_tokens rare_names (art_headline art)) as [[ps pn] n].
  rewrite Hcap. destruct (String.eqb (strip (sec_text cap)) ""); [done|].
  assert (Hpos : (pos < length (art_sections art))%nat)
    by (apply nth_error_Some; congruence).
  pose proof (build_window_exits count_tokens rare_names (art_sections art) pos ps pn n Hpos).
  destruct (build_window _ _ _ _ _ _ _) as [[[[ps' pn'] k] w]|]; [|done].
  by rewrite Himg.
Qed.

Lemma read_positions_ignores_positions count_tokens Image open_image rare_names image_dir
    sections p1 p2 hl url (ps : list nat) :
  read_positions count_tokens Image open_image rare_names image_dir
    (mkArticle sections p1 hl url) ps =
  read_positions count_tokens Image open_image rare_names image_dir
    (mkArticle sections p2 hl url) ps.
Proof.
  induction ps as [|pos ps IH]; [done|]. cbn [read_positions].
  change (read_pos count_tokens Image open_image rare_names image_dir
            (mkArticle sections p1 hl url) pos)
    with (read_pos count_tokens Image open_image rare_names image_dir
            (mkArticle sections p2 hl url) pos).
  by rewrite IH.
Qed.

(** C8: when the image file of an (article, image position) pair cannot be
    opened, the NYTimes reader yields exactly what it yields without that
    pair: no instance for it, no exception, and the same instances (and
    end) for the remaining positions and articles. The GoodNews reader
    does the same for a sample whose image cannot be opened. *)
Theorem C8_missing_image_skipped :
  (forall count_tokens Image open_image rare_names image_dir
          (sections : list Sec) hl url (pos : nat) ps arts cap,
     nth_error sections pos = Some cap ->
     open_image (path_join image_dir (sec_hash cap ++ ".jpg")) = None ->
     read_articles count_tokens Image open_image rare_names image_dir
       (mkArticle sections (pos :: ps) hl url :: arts) =
     read_articles count_tokens Image open_image rare_names image_dir
       (mkArticle sections ps hl url :: arts)) /\
  (forall Image (open_image : string -> option Image) image_dir articles sample samples,
     open_image (path_join image_dir (gs_id sample ++ ".jpg")) = None ->
     read_samples Image open_image image_dir articles (sample :: samples) =
     read_samples Image open_image image_dir articles samples).
Proof.
  split.
  - intros count_tokens Image open_image rare_names image_dir sections hl url pos ps arts cap
      Hcap Himg.
    cbn [read_articles read_positions art_image_positions].
    rewrite (read_pos_no_image _ _ _ _ _ _ _ cap); [|exact Hcap|exact Himg].
    by rewrite (read_positions_ignores_positions _ _ _ _ _ sections (pos :: ps) ps).
  - intros Image open_image image_dir articles sample samples Himg.
    simpl. by rewrite Himg.
Qed.

Lemma C8_missing_image_skipped_witness :
  nth_error [par "A"; img "cap" "h1"; par "B"] 1%nat = Some (img "cap" "h1") /\
  read_articles (fun s => String.length s) unit (fun _ => None) None "/images"
    [mkArticle [par "A"; img "cap" "h1"; par "B"] [1%nat]
               (mkHeadline (Some "X dies") []) "https://example.com/x"] =
  read_articles (fun s => String.length s) unit (fun _ => None) None "/images"
    [mkArticle [par "A"; img "cap" "h1"; par "B"] []
               (mkHeadline (Some "X dies") []) "https://example.com/x"] /\
  read_samples unit (fun _ => None) "/images" []
    [mkGSample "s1" "test" "a1" 0] = ([], Done).
Proof.
  split; [reflexivity|]. split.
  - apply (proj1 C8_missing_image_skipped (fun s => String.length s) unit (fun _ => None)
             None "/images" [par "A"; img "cap" "h1"; par "B"]
             (mkHeadline (Some "X dies") []) "https://example.com/x" 1%nat [] []
             (img "cap" "h1")); reflexivity.
  - rewrite (proj2 C8_missing_image_skipped unit (fun _ => None) "/images" []
               (mkGSample "s1" "test" "a1" 0) [] eq_refl).
    reflexivity.
Defined.

(* ------------------------------------------------------------------ *)
(** ** Tokenization, queries and instances of the readers *)

Lemma lstrip_split cs :
  exists sp, Forall is_sp sp /\ cs = sp ++ lstrip_chars cs /\
    match lstrip_chars cs with [] => True | c :: _ => is_py_space c = false end.
Proof.
  induction cs as [|c cs IH]; simpl.
  - exists []. auto.
  - destruct (is_py_space c) eqn:Hc.
    + destruct IH as (sp & Hsp & Heq & Hh). exists (c :: sp).
      split; [by constructor|]. split; [by rewrite Heq at 1|done].
    + exists []. auto.
Qed.

Lemma strip_list s :
  list_ascii_of_string (strip s) =
  rev (lstrip_chars (rev (lstrip_chars (list_ascii_of_string s)))).
Proof. unfold strip. by rewrite list_ascii_of_string_of_list_ascii. Qed.

(** [strip] removes a whitespace prefix and a whitespace suffix, and what
    it keeps neither starts nor ends with whitespace. *)

Lemma strip_shape s :
  exists pre suf, Forall is_sp pre /\ Forall is_sp suf /\
    list_ascii_of_string s = pre ++ list_ascii_of_string (strip s) ++ suf /\
    match list_ascii_of_string (strip s) with
    | [] => True
    | c :: _ => is_py_space c = false /\
                is_py_space (List.last (list_ascii_of_string (strip s)) c) = false
    end.
Proof.
  rewrite strip_list. set (l := list_ascii_of_string s).
  destruct (lstrip_split l) as (pre & Hpre & Hl & Hh1).
  set (m := lstrip_chars l) in *.
  destruct (lstrip_split (rev m)) as (sp2 & Hsp2 & Hm & Hh2).
  set (r := lstrip_chars (rev m)) in *.
  exists pre, (rev sp2). split; [done|]. split; [by apply Forall_rev|].
  split.
  - rewrite Hl at 1. f_equal. rewrite <- (rev_involutive m) at 1. rewrite Hm.
    by rewrite rev_app_distr.
  - destruct (rev r) as [|c rr] eqn:Hr; [done|].
    assert (Hmr : m = c :: rr ++ rev sp2).
    { rewrite <- (rev_involutive m), Hm, rev_app_distr, Hr. done. }
    rewrite Hmr in Hh1. split; [done|].
    destruct r as [|d r']; [simpl in Hr; discriminate|].
    assert (Hlast : List.last (c :: rr) c = d).
    { rewrite <- Hr. simpl. apply List.last_last. }
    by rewrite Hlast.
Qed.

Lemma split_words_snoc_space cur cs c :
  is_py_space c = true -> split_words cur (cs ++ [c]) = split_words cur cs.
Proof.
  intros Hc. revert cur. induction cs as [|d cs IH]; intros cur; simpl.
  - rewrite Hc. by destruct cur.
  - destruct (is_py_space d); [destruct cur; by rewrite IH|by rewrite IH].
Qed.

Lemma split_words_app_spaces cur cs sp :
  Forall is_sp sp -> split_words cur (cs ++ sp) = split_words cur cs.
Proof.
  intros Hsp. revert cs. induction Hsp as [|c sp Hc Hsp IH]; intros cs.
  - by rewrite app_nil_r.
  - replace (cs ++ c :: sp) with ((cs ++ [c]) ++ sp) by by rewrite <- app_assoc.
    rewrite IH. by apply split_words_snoc_space.
Qed.

Lemma split_words_spaces_app sp cs :
  Forall is_sp sp -> split_words [] (sp ++ cs) = split_words [] cs.
Proof.
  induction 1 as [|c sp Hc Hsp IH]; [done|]. simpl. unfold is_sp in Hc. by rewrite Hc.
Qed.

Lemma split_words_strip s :
  split_words [] (list_ascii_of_string (strip s)) = split_words [] (list_ascii_of_string s).
Proof.
  destruct (strip_shape s) as (pre & suf & Hpre & Hsuf & Heq & _).
  rewrite Heq, split_words_spaces_app by done. by rewrite split_words_app_spaces.
Qed.

Lemma split_words_sub_space b cur cs :
  (b = true -> cur = []) -> split_words cur (sub_space b cs) = split_words cur cs.
Proof.
  revert b cur. induction cs as [|c cs IH]; intros b cur Hb; simpl; [done|].
  destruct (is_py_space c) eqn:Hc.
  - destruct b.
    + rewrite (Hb eq_refl). rewrite IH by done. done.
    + simpl. destruct cur; rewrite IH by done; done.
  - simpl. rewrite Hc. apply IH. discriminate.
Qed.

Lemma tokenize_line_split line : tokenize_line line = py_split line.
Proof.
  unfold tokenize_line, py_split. f_equal.
  rewrite split_words_strip, list_ascii_of_string_of_list_ascii.
  by apply split_words_sub_space.
Qed.

(** X1: [tokenize_line] gives the words of Python's [str.split()] of the
    line: the whitespace normalisation and the strip before the split
    change nothing. *)
Theorem X1_tokenize_line_is_split (line : string) : tokenize_line line = py_split line.
Proof. exact (tokenize_line_split line). Qed.

Lemma split_words_words cur cs :
  Forall (fun c => is_py_space c = false) cur ->
  Forall (fun w => w <> [] /\ Forall (fun c => is_py_space c = false) w) (split_words cur cs).
Proof.
  revert cur. induction cs as [|c cs IH]; intros cur Hcur; simpl.
  - destruct cur; [constructor|]. constructor; [split; [done|done]|constructor].
  - destruct (is_py_space c) eqn:Hc.
    + destruct cur as [|d cur]; [by apply IH|].
      constructor; [split; [done|done]|]. by apply IH.
    + apply IH. apply Forall_app. split; [done|]. by constructor.
Qed.

Lemma list_ascii_of_string_app a b :
  list_ascii_of_string (a ++ b) = list_ascii_of_string a ++ list_ascii_of_string b.
Proof. induction a as [|c a IH]; simpl; [done|]. by rewrite IH. Qed.

Lemma split_words_word cur w cs :
  Forall (fun c => is_py_space c = false) w ->
  split_words cur (w ++ cs) = split_words (cur ++ w) cs.
Proof.
  intros Hw. revert cur. induction Hw as [|c w Hc Hw IH]; intros cur; simpl.
  - by rewrite app_nil_r.
  - rewrite Hc, IH. by rewrite <- app_assoc.
Qed.

(** X2: every word [tokenize_line] returns is non-empty and contains no
    whitespace character. *)
Theorem X2_tokenize_line_words line : Forall py_word (tokenize_line line).
Proof.
  rewrite tokenize_line_split. unfold py_split.
  pose proof (split_words_words [] (list_ascii_of_string line) ltac:(constructor)) as H.
  induction H as [|w ws [Hne Hw] _ IH]; simpl; constructor; [|done].
  split; [|by rewrite list_ascii_of_string_of_list_ascii].
  destruct w; [done|discriminate].
Qed.

Lemma split_words_word_space c w rest :
  Forall (fun c => is_py_space c = false) (c :: w) ->
  split_words [] ((c :: w) ++ [" "%char] ++ rest) = (c :: w) :: split_words [] rest.
Proof. intros Hw. rewrite split_words_word by done. reflexivity. Qed.

(** X3: [tokenize_line] undoes [' '.join]: for non-empty words without
    whitespace, tokenizing the words joined by single spaces gives them
    back. *)
Theorem X3_tokenize_line_join ws : Forall py_word ws -> tokenize_line (py_join " " ws) = ws.
Proof.
  rewrite tokenize_line_split. unfold py_split.
  induction 1 as [|w ws [Hne Hw] Hws IH]; [done|].
  destruct w as [|c w']; [done|].
  destruct ws as [|w2 ws].
  - simpl py_join. rewrite <- (app_nil_r (list_ascii_of_string _)).
    rewrite split_words_word by done. simpl. by rewrite string_of_list_ascii_of_string.
  - change (py_join " " (String c w' :: w2 :: ws))
      with (String c w' ++ " " ++ py_join " " (w2 :: ws))%string.
    rewrite !list_ascii_of_string_app.
    change (list_ascii_of_string " ") with [" "%char].
    change (list_ascii_of_string (String c w')) with (c :: list_ascii_of_string w') in *.
    rewrite split_words_word_space by done.
    cbn [map]. rewrite IH. f_equal.
    change (c :: list_ascii_of_string w') with (list_ascii_of_string (String c w')).
    apply string_of_list_ascii_of_string.
Qed.

Lemma token_ids_loop_spec indices words ids :
  token_ids_loop indices words = Some ids <->
  Forall2 (fun w i => indices !! w = Some i) words ids.
Proof.
  revert ids. induction words as [|w words IH]; intros ids; simpl.
  - split; [intros [= <-]; constructor|intros H; by inversion H].
  - destruct (indices !! w) as [i|] eqn:Hw.
    + destruct (token_ids_loop indices words) as [ids'|] eqn:Hl.
      * split.
        -- intros [= <-]. constructor; [done|]. by apply IH.
        -- intros H. inversion H as [|? i' ? ids'' Hi Hrest]; subst.
           apply IH in Hrest. congruence.
      * split; [done|]. intros H. inversion H as [|? i' ? ids'' Hi Hrest]; subst.
        apply IH in Hrest. congruence.
    + split; [done|]. intros H. inversion H; congruence.
Qed.

(** X5: a word is in the rare-name set built by [__init__] exactly when its
    summed count over the context and caption counters (a counter missing
    the word counting 0) is positive and below the threshold. *)
Theorem X5_rare_names_membership counters threshold w :
  w ∈ rare_names_of counters threshold <->
  let n := default 0 (c_context counters !! w) + default 0 (c_caption counters !! w) in
  0 < n /\ n < threshold.
Proof.
  unfold rare_names_of, counter_add. rewrite elem_of_dom. simpl.
  rewrite !map_lookup_filter, lookup_union_with.
  destruct (c_context counters !! w) as [x|], (c_caption counters !! w) as [y|];
    simpl; unfold is_Some; simpl;
    repeat (case_guard; simpl); split;
    try (intros [? Hx]; discriminate Hx); try (intros; eexists; reflexivity); lia.
Qed.

Lemma takewhile_subset {A} (p : A -> bool) l x : x ∈ takewhile p l -> x ∈ l.
Proof.
  induction l as [|y l IH]; simpl; [set_solver|].
  destruct (p y); [|set_solver]. rewrite !elem_of_cons. intuition.
Qed.

Lemma takewhile_NoDup_fst (p : string * Z -> bool) l :
  NoDup (map fst l) -> NoDup (map fst (takewhile p l)).
Proof.
  induction l as [|[k v] l IH]; simpl; [done|].
  intros Hnd. apply NoDup_cons in Hnd as [Hk Hnd].
  destruct (p (k, v)); simpl; [|constructor].
  constructor; [|by apply IH].
  intros Hin. apply Hk. apply list_elem_of_fmap in Hin as ([k' v'] & -> & Hin).
  apply list_elem_of_fmap. exists (k', v'). split; [done|]. by eapply takewhile_subset.
Qed.

Lemma takewhile_sorted_elem threshold l w n :
  StronglySorted (fun a b : string * Z => b.2 <= a.2) l ->
  (w, n) ∈ takewhile (fun x => threshold <? x.2) l <-> (w, n) ∈ l /\ threshold < n.
Proof.
  induction 1 as [|[k v] l Hs IH Hall]; simpl; [set_solver|].
  destruct (threshold <? v) eqn:Hv.
  - apply Z.ltb_lt in Hv. rewrite !elem_of_cons, IH. split.
    + intros [[= -> ->]|[? ?]]; auto.
    + intros [[[= -> ->]|?] ?]; auto.
  - apply Z.ltb_ge in Hv. split; [set_solver|].
    intros [[[= -> ->]|Hin]%elem_of_cons Hn]; [lia|].
    rewrite Forall_forall in Hall. specialize (Hall (w, n)).
    specialize (Hall Hin). simpl in Hall. lia.
Qed.

Lemma fold_insert_lookup (l : list (string * Z)) (m : gmap string Z) w n :
  NoDup (map fst l) ->
  (fold_left (fun m kv => <[kv.1 := kv.2]> m) l m) !! w = Some n <->
  (w, n) ∈ l \/ ((w ∉ map fst l) /\ m !! w = Some n).
Proof.
  revert m. induction l as [|[k v] l IH]; intros m Hnd; simpl.
  - set_solver.
  - apply NoDup_cons in Hnd as [Hk Hnd]. rewrite IH by done.
    destruct (decide (w = k)) as [->|Hne].
    + rewrite lookup_insert_eq. split.
      * intros [Hin|[_ [= <-]]]; [|left; set_solver].
        exfalso. apply Hk. apply list_elem_of_fmap. by exists (k, n).
      * intros [[[= <-]|Hin]%elem_of_cons|[Hn _]]; [right; split; [done|done]| |set_solver].
        exfalso. apply Hk. apply list_elem_of_fmap. by exists (k, n).
    + rewrite lookup_insert_ne by congruence. rewrite elem_of_cons. split.
      * intros [Hin|[Hw Hm]]; [by left; right|right; split; [|done]].
        rewrite elem_of_cons. intros [?|?]; [congruence|done].
      * intros [[[= -> ->]|Hin]|[Hw Hm]]; [congruence|by left|].
        right. split; [|done]. intros ?; apply Hw. by apply elem_of_cons; right.
Qed.

(** X6: when [counter.most_common()] lists distinct words by non-increasing
    count, [self.most_common] maps exactly the listed words whose count
    exceeds [rare_threshold] to their counts. *)
Theorem X6_most_common_above_threshold most_common rare_threshold w n :
  Sorted (fun a b : string * Z => b.2 <= a.2) most_common ->
  NoDup (map fst most_common) ->
  most_common_of most_common rare_threshold !! w = Some n <->
  (w, n) ∈ most_common /\ rare_threshold < n.
Proof.
  intros Hsort Hnd.
  assert (Hss : StronglySorted (fun a b : string * Z => b.2 <= a.2) most_common).
  { apply Sorted_StronglySorted; [|done]. intros a b c; lia. }
  unfold most_common_of, dict_of_list.
  rewrite fold_insert_lookup by (by apply takewhile_NoDup_fst).
  rewrite lookup_empty, takewhile_sorted_elem by done.
  split; [intros [H|[_ H]]; [done|discriminate]|by left].
Qed.

Lemma dt_cmp_trans_lt a b c : dt_cmp a b = Lt -> dt_cmp b c = Lt -> dt_cmp a c = Lt.
Proof.
  revert b c. induction a as [|x a IH]; intros [|y b] [|z c]; simpl; try discriminate; auto.
  destruct (Z.compare_spec x y); destruct (Z.compare_spec y z);
    destruct (Z.compare_spec x z); intros; try lia; try discriminate; eauto.
Qed.

Lemma article_query_true start end_ d :
  article_query start end_ d = true <->
  doc_parsed d = true /\ 0 < doc_n_images d /\ dt_lt (doc_pub_date d) start = false /\
  dt_lt (doc_pub_date d) end_ = true /\ doc_language d = "en".
Proof.
  unfold article_query. rewrite !andb_true_iff, negb_true_iff, Z.ltb_lt, String.eqb_eq.
  tauto.
Qed.

Lemma in_split_known split d b :
  in_split split d = inr b -> split = "train" \/ split = "valid" \/ split = "test".
Proof.
  unfold in_split, split_range.
  destruct (String.eqb_spec split "train"); [auto|].
  destruct (String.eqb_spec split "valid"); [auto|].
  destruct (String.eqb_spec split "test"); [auto|discriminate].
Qed.

Lemma in_split_range split d b :
  in_split split d = inr b ->
  exists start end_, split_range split = inr (start, end_) /\ b = article_query start end_ d.
Proof.
  unfold in_split. destruct (split_range split) as [|[start end_]]; [discriminate|].
  intros [= <-]. eauto.
Qed.

(** X7: no article document is returned by the cursors of two different
    splits of [NYTimesNamesCopyReader._read]. *)
Theorem X7_splits_disjoint s1 s2 d :
  in_split s1 d = inr true -> in_split s2 d = inr true -> s1 = s2.
Proof.
  intros H1 H2.
  pose proof (in_split_known _ _ _ H1) as K1. pose proof (in_split_known _ _ _ H2) as K2.
  apply in_split_range in H1 as (a1 & b1 & R1 & Q1).
  apply in_split_range in H2 as (a2 & b2 & R2 & Q2).
  symmetry in Q1, Q2. apply article_query_true in Q1 as (_ & _ & L1 & U1 & _).
  apply article_query_true in Q2 as (_ & _ & L2 & U2 & _).
  assert (Hmid : dt_cmp (datetime 2019 5 1) (datetime 2019 6 1) = Lt) by reflexivity.
  unfold dt_lt in *.
  destruct K1 as [-> | [-> | ->]]; destruct K2 as [-> | [-> | ->]]; try reflexivity;
    injection R1 as <- <-; injection R2 as <- <-; exfalso;
    repeat match goal with
    | H : match ?c with Lt => _ | _ => _ end = true |- _ =>
        destruct c eqn:?; try discriminate H; clear H
    end;
    repeat match goal with
    | H : match ?c with Lt => _ | _ => _ end = false |- _ =>
        destruct c eqn:?; try discriminate H; clear H
    end; try congruence;
    match goal with
    | H1 : dt_cmp ?d (datetime 2019 5 1) = Lt, H2 : dt_cmp ?d (datetime 2019 6 1) = _ |- _ =>
        rewrite (dt_cmp_trans_lt _ _ _ H1 Hmid) in H2; discriminate
    end.
Qed.

(** X8: every parsed English article with at least one image published
    from 2000-01-01 (inclusive) to 2019-09-01 (exclusive) is returned by
    the cursor of some split. *)
Theorem X8_splits_cover d :
  doc_parsed d = true -> 0 < doc_n_images d -> doc_language d = "en" ->
  dt_lt (doc_pub_date d) (datetime 2000 1 1) = false ->
  dt_lt (doc_pub_date d) (datetime 2019 9 1) = true ->
  exists split, in_split split d = inr true.
Proof.
  intros Hp Hn Hl Hlo Hhi. unfold in_split, split_range.
  destruct (dt_lt (doc_pub_date d) (datetime 2019 5 1)) eqn:H1.
  - exists "train". simpl. f_equal. apply article_query_true. auto.
  - destruct (dt_lt (doc_pub_date d) (datetime 2019 6 1)) eqn:H2.
    + exists "valid". simpl. f_equal. apply article_query_true. auto.
    + exists "test". simpl. f_equal. apply article_query_true. auto.
Qed.

Lemma read_samples_length Image open_image image_dir articles samples :
  (length (read_samples Image open_image image_dir articles samples).1 <= length samples)%nat.
Proof.
  induction samples as [|s samples IH]; simpl; [lia|].
  destruct (open_image (path_join image_dir (gs_id s ++ ".jpg"))); [|lia].
  destruct (g_article_to_instance _ _ _ _ _) as [e|x]; simpl; [lia|].
  destruct (read_samples _ _ _ _ _) as [xs st]. simpl in *. lia.
Qed.

Lemma read_samples_origin Image open_image image_dir articles samples x :
  x ∈ (read_samples Image open_image image_dir articles samples).1 ->
  exists s a caption, s ∈ samples /\
    find_one articles (gs_article_id s) = Some a /\
    gi_image_path Image x = path_join image_dir (gs_id s ++ ".jpg") /\
    open_image (gi_image_path Image x) = Some (gi_image Image x) /\
    nth_error (ga_images a) (gs_image_index s) = Some caption /\
    gi_caption Image x = strip caption /\
    gi_context Image x = strip (ga_context a) /\
    gi_web_url Image x = ga_web_url a.
Proof.
  induction samples as [|s samples IH]; simpl; [set_solver|].
  destruct (open_image (path_join image_dir (gs_id s ++ ".jpg"))) as [image|] eqn:Himg.
  2:{ intros Hx. destruct (IH Hx) as (s' & a & c & Hs' & Hrest).
      exists s', a, c. split; [set_solver|done]. }
  destruct (find_one articles (gs_article_id s)) as [a|] eqn:Ha; simpl; [|set_solver].
  destruct (nth_error (ga_images a) (gs_image_index s)) as [c|] eqn:Hc; simpl; [|set_solver].
  destruct (read_samples _ _ _ _ _) as [xs st] eqn:Hr. simpl in *.
  intros [->|Hx]%elem_of_cons.
  - exists s, a, c. simpl. split; [set_solver|]. auto 8.
  - destruct (IH Hx) as (s' & a' & c' & Hs' & Hrest).
    exists s', a', c'. split; [set_solver|done].
Qed.

Lemma g_read_cursor split eval_limit samples s :
  s ∈ (if ((if String.eqb split "val" then eval_limit else 0%nat) =? 0)%nat
       then List.filter (fun s => String.eqb (gs_split s) split) samples
       else take (if String.eqb split "val" then eval_limit else 0%nat)
                 (List.filter (fun s => String.eqb (gs_split s) split) samples)) ->
  s ∈ samples /\ gs_split s = split.
Proof.
  intros Hs.
  assert (Hf : s ∈ List.filter (fun s => String.eqb (gs_split s) split) samples).
  { destruct (_ =? 0)%nat; [done|]. by eapply subseteq_take. }
  apply list_elem_of_In, filter_In in Hf as [Hin Heq].
  split; [by apply list_elem_of_In|]. by apply String.eqb_eq.
Qed.

(** X9: every instance [RareGoodNewsReader._read(split)] yields comes from
    a sample of that split whose article is found and whose image opened:
    its image path is [image_dir/<sample id>.jpg], its caption is the
    stripped caption at the sample's image index, its context the
    stripped article context. *)
Theorem X9_g_read_instance_origin Image open_image image_dir eval_limit split articles samples x :
  x ∈ (g_read Image open_image image_dir eval_limit split articles samples).1 ->
  exists s a caption, s ∈ samples /\ gs_split s = split /\
    find_one articles (gs_article_id s) = Some a /\
    gi_image_path Image x = path_join image_dir (gs_id s ++ ".jpg") /\
    open_image (gi_image_path Image x) = Some (gi_image Image x) /\
    nth_error (ga_images a) (gs_image_index s) = Some caption /\
    gi_caption Image x = strip caption /\
    gi_context Image x = strip (ga_context a) /\
    gi_web_url Image x = ga_web_url a.
Proof.
  unfold g_read. destruct (negb _); simpl; [set_solver|].
  intros Hx. apply read_samples_origin in Hx as (s & a & c & Hs & Hrest).
  apply g_read_cursor in Hs as [Hs Hsplit]. exists s, a, c. auto.
Qed.

(** X10: with a positive [eval_limit], [_read('val')] of the GoodNews
    reader yields at most [eval_limit] instances. *)
Theorem X10_g_read_val_limit Image open_image image_dir eval_limit articles samples :
  (0 < eval_limit)%nat ->
  (length (g_read Image open_image image_dir eval_limit "val" articles samples).1
     <= eval_limit)%nat.
Proof.
  intros Hl. unfold g_read. simpl.
  destruct (eval_limit =? 0)%nat eqn:H0; [apply Nat.eqb_eq in H0; lia|].
  etrans; [apply read_samples_length|]. rewrite length_take. lia.
Qed.

Lemma loop_body_aligned count_tokens rare_names sections k w :
  win_aligned w -> win_aligned (loop_body count_tokens rare_names sections k w).
Proof.
  destruct w as [b bn a an n i j]. unfold win_aligned, loop_body. simpl.
  intros [Hb Ha].
  destruct ((k <? i) && is_paragraph (sec_at sections i)); simpl;
  destruct ((k <? j) && (j <? Z.of_nat (length sections)) && is_paragraph (sec_at sections j));
  simpl; rewrite ?length_app; simpl; lia.
Qed.

Lemma expand_aligned count_tokens rare_names sections k fuel w w' :
  win_aligned w -> expand count_tokens rare_names sections k fuel w = Some w' ->
  win_aligned w'.
Proof.
  revert w. induction fuel as [|fuel IH]; intros w Hw Hrun; [done|].
  simpl in Hrun. pose proof (loop_body_aligned count_tokens rare_names sections k w Hw).
  destruct (loop_exit _ _ _); [by injection Hrun as <-|by eapply IH].
Qed.

Lemma build_window_aligned count_tokens rare_names sections pos ps0 pn0 n0 ps pn k w :
  build_window count_tokens rare_names sections pos ps0 pn0 n0 = Some (ps, pn, k, w) ->
  length ps0 = length pn0 ->
  length ps = length pn /\ win_aligned w.
Proof.
  unfold build_window. destruct (anchor_search 0 sections) as [k0 anchor].
  intros Hbw Hl.
  destruct (expand _ _ _ _ _ _) as [w'|] eqn:Hrun; [|by destruct anchor].
  assert (Ha : win_aligned w').
  { eapply expand_aligned; [|exact Hrun]. split; reflexivity. }
  destruct anchor; injection Hbw as <- <- <- <-; rewrite ?length_app; simpl; split;
    auto; lia.
Qed.

Lemma flatten_loop_length off ps ns :
  length ps = length ns ->
  length (flatten_loop off ps ns) = sum_list_with length ns.
Proof.
  revert off ns. induction ps as [|p ps IH]; intros off [|idx ns] Hl; simpl in *; try lia.
  rewrite length_app, length_map, IH by lia. done.
Qed.

(** X11: an instance yielded for image position [pos] has as caption the
    stripped text of [sections[pos]], which is non-empty and neither starts
    nor ends with whitespace; its caption names are those of that section,
    its image path is [image_dir/<hash>.jpg] for the section's hash and
    the image opened from it, and it carries [pos] and the article's URL. *)
Theorem X11_read_pos_yield_shape count_tokens Image open_image rare_names image_dir art pos a :
  read_pos count_tokens Image open_image rare_names image_dir art pos = Yield Image a ->
  exists cap_sec, nth_error (art_sections art) pos = Some cap_sec /\
    ia_caption Image a = strip (sec_text cap_sec) /\
    match list_ascii_of_string (ia_caption Image a) with
    | [] => False
    | c :: _ => is_py_space c = false /\
                is_py_space (List.last (list_ascii_of_string (ia_caption Image a)) c) = false
    end /\
    ia_caption_name_indices Image a = get_proper_names rare_names (sec_pos cap_sec) /\
    ia_image_path Image a = path_join image_dir (sec_hash cap_sec ++ ".jpg") /\
    open_image (ia_image_path Image a) = Some (ia_image Image a) /\
    ia_pos Image a = pos /\ ia_web_url Image a = art_web_url art.
Proof.
  unfold read_pos.
  destruct (headline_part count_tokens rare_names (art_headline art)) as [[ps0 pn0] n0].
  destruct (nth_error (art_sections art) pos) as [cap|] eqn:Hcap; [|discriminate].
  destruct (String.eqb (strip (sec_text cap)) "") eqn:Hne; [discriminate|].
  destruct (build_window _ _ _ _ _ _ _) as [[[[ps1 pn1] k1] w]|]; [|discriminate].
  destruct (open_image _) as [image|] eqn:Himg; [|discriminate].
  intros [= <-]. exists cap. simpl. split; [done|]. split; [done|].
  split; [|auto].
  destruct (strip_shape (sec_text cap)) as (_ & _ & _ & _ & _ & Hshape).
  destruct (list_ascii_of_string (strip (sec_text cap))) eqn:Hl; [|done].
  apply String.eqb_neq in Hne. apply Hne.
  rewrite <- (string_of_list_ascii_of_string (strip _)), Hl. done.
Qed.

(** X12: for every yielded instance, [_flatten_name_indices] receives as
    many name lists as paragraphs, so [zip] drops no name span: the number
    of context name spans is the total number of spans of the lists. *)
Theorem X12_read_pos_names_aligned count_tokens Image open_image rare_names image_dir art pos a :
  read_pos count_tokens Image open_image rare_names image_dir art pos = Yield Image a ->
  exists names, length names = length (ia_paragraphs Image a) /\
    ia_name_indices Image a = flatten_name_indices (ia_paragraphs Image a) names /\
    length (ia_name_indices Image a) = sum_list_with length names.
Proof.
  unfold read_pos.
  destruct (headline_part count_tokens rare_names (art_headline art)) as [[ps0 pn0] n0] eqn:Hh.
  destruct (nth_error (art_sections art) pos) as [cap|]; [|discriminate].
  destruct (String.eqb _ ""); [discriminate|].
  destruct (build_window _ _ _ _ _ _ _) as [[[[ps1 pn1] k1] w]|] eqn:Hbw; [|discriminate].
  destruct (open_image _) as [image|]; [|discriminate].
  intros [= <-]. simpl.
  assert (Hl0 : length ps0 = length pn0).
  { unfold headline_part in Hh. destruct (negb _); injection Hh as <- <- _; done. }
  destruct (build_window_aligned _ _ _ _ _ _ _ _ _ _ _ Hbw Hl0) as [Hl1 [Hb Ha]].
  exists (pn1 ++ w_before_names w ++ w_after_names w).
  assert (Hlen : length (pn1 ++ w_before_names w ++ w_after_names w) =
                 length (ps1 ++ w_before w ++ w_after w)) by (rewrite !length_app; lia).
  split; [done|]. split; [done|]. unfold flatten_name_indices.
  by rewrite flatten_loop_length.
Qed.

Lemma read_positions_origin count_tokens Image open_image rare_names image_dir art ps x :
  x ∈ (read_positions count_tokens Image open_image rare_names image_dir art ps).1 ->
  exists pos, pos ∈ ps /\
    read_pos count_tokens Image open_image rare_names image_dir art pos = Yield Image x.
Proof.
  induction ps as [|pos ps IH]; simpl; [set_solver|].
  destruct (read_pos _ _ _ _ _ art pos) as [|a|e|] eqn:Hr; simpl.
  - intros Hx. destruct (IH Hx) as (p & Hp & Hrp). exists p. split; [set_solver|done].
  - destruct (read_positions _ _ _ _ _ art ps) as [xs st] eqn:Hrs. simpl in *.
    intros [->|Hx]%elem_of_cons; [exists pos; split; [set_solver|done]|].
    destruct (IH Hx) as (p & Hp & Hrp). exists p. split; [set_solver|done].
  - set_solver.
  - set_solver.
Qed.

Lemma read_positions_length count_tokens Image open_image rare_names image_dir art ps :
  (length (read_positions count_tokens Image open_image rare_names image_dir art ps).1
     <= length ps)%nat.
Proof.
  induction ps as [|pos ps IH]; simpl; [lia|].
  destruct (read_pos _ _ _ _ _ art pos); simpl; try lia.
  destruct (read_positions _ _ _ _ _ art ps) as [xs st]. simpl in *. lia.
Qed.

Lemma read_pos_yield_pos count_tokens Image open_image rare_names image_dir art pos a :
  read_pos count_tokens Image open_image rare_names image_dir art pos = Yield Image a ->
  ia_pos Image a = pos.
Proof.
  unfold read_pos.
  destruct (headline_part count_tokens rare_names (art_headline art)) as [[ps0 pn0] n0].
  destruct (nth_error (art_sections art) pos) as [cap|]; [|discriminate].
  destruct (String.eqb _ ""); [discriminate|].
  destruct (build_window _ _ _ _ _ _ _) as [[[[ps1 pn1] k1] w]|]; [|discriminate].
  destruct (open_image _); [|discriminate].
  by intros [= <-].
Qed.

(** X13: every instance of [NYTimesNamesCopyReader._read] is the result of
    the per-image body for one of the listed image positions of one of the
    articles of the cursor. *)
Theorem X13_read_articles_origin count_tokens Image open_image rare_names image_dir arts x :
  x ∈ (read_articles count_tokens Image open_image rare_names image_dir arts).1 ->
  exists art, art ∈ arts /\ ia_pos Image x ∈ art_image_positions art /\
    read_pos count_tokens Image open_image rare_names image_dir art (ia_pos Image x)
      = Yield Image x.
Proof.
  induction arts as [|art arts IH]; simpl; [set_solver|].
  destruct (read_positions _ _ _ _ _ art (art_image_positions art)) as [xs st] eqn:Hrs.
  assert (Hxs : x ∈ xs -> exists art', art' ∈ art :: arts /\
            ia_pos Image x ∈ art_image_positions art' /\
            read_pos count_tokens Image open_image rare_names image_dir art' (ia_pos Image x)
              = Yield Image x).
  { intros Hx. assert (Hx' : x ∈ (read_positions count_tokens Image open_image rare_names
                                     image_dir art (art_image_positions art)).1)
      by (by rewrite Hrs).
    destruct (read_positions_origin _ _ _ _ _ _ _ _ Hx') as (p & Hp & Hrp).
    pose proof (read_pos_yield_pos _ _ _ _ _ _ _ _ Hrp) as Hpos.
    exists art. rewrite Hpos. split; [set_solver|done]. }
  destruct st; simpl; try exact Hxs.
  destruct (read_articles _ _ _ _ _ arts) as [ys st'] eqn:Hra. simpl in *.
  intros [Hx|Hy]%elem_of_app; [by apply Hxs|].
  destruct (IH Hy) as (art' & Ha & Hrest). exists art'. split; [set_solver|done].
Qed.

(** X14: [NYTimesNamesCopyReader._read] yields at most one instance per
    listed image position of the articles of the cursor. *)
Theorem X14_read_articles_count count_tokens Image open_image rare_names image_dir arts :
  (length (read_articles count_tokens Image open_image rare_names image_dir arts).1
     <= sum_list_with (fun art => length (art_image_positions art)) arts)%nat.
Proof.
  induction arts as [|art arts IH]; simpl; [lia|].
  pose proof (read_positions_length count_tokens Image open_image rare_names image_dir art
                (art_image_positions art)) as Hp.
  destruct (read_positions _ _ _ _ _ art (art_image_positions art)) as [xs st]. simpl in *.
  destruct st; simpl; try lia.
  destruct (read_articles _ _ _ _ _ arts) as [ys st']. simpl in *.
  rewrite length_app. lia.
Qed.

Lemma string_length_list s : String.length s = length (list_ascii_of_string s).
Proof. induction s as [|c s IH]; simpl; lia. Qed.

Lemma py_join_cons sep x xs :
  xs <> [] -> py_join sep (x :: xs) = (x ++ sep ++ py_join sep xs)%string.
Proof. destruct xs; [done|reflexivity]. Qed.

Lemma flatten_join off ps ns i p idx s e :
  ps !! i = Some p -> ns !! i = Some idx -> (s, e) ∈ idx ->
  exists pre post,
    list_ascii_of_string (py_join newline ps) = pre ++ list_ascii_of_string p ++ post /\
    (s + (off + Z.of_nat (length pre)), e + (off + Z.of_nat (length pre)))
      ∈ flatten_loop off ps ns.
Proof.
  revert off ns i. induction ps as [|p0 ps IH]; intros off ns i Hp Hidx Hse; [done|].
  destruct ns as [|idx0 ns]; [done|].
  assert (Hhere : (s + off, e + off) ∈ flatten_loop off (p0 :: ps) (idx0 :: ns) <->
                  (s + off, e + off) ∈ map (fun '(s, e) => (s + off, e + off)) idx0 \/
                  (s + off, e + off) ∈ flatten_loop (off + Z.of_nat (String.length p0) + 1) ps ns).
  { simpl. by rewrite elem_of_app. }
  destruct i as [|i]; simpl in Hp, Hidx.
  - injection Hp as <-. injection Hidx as <-.
    exists [], (match ps with
                | [] => []
                | _ => list_ascii_of_string (newline ++ py_join newline ps)
                end).
    split.
    + destruct ps as [|p1 ps]; [by rewrite app_nil_r|].
      rewrite py_join_cons by done. by rewrite list_ascii_of_string_app.
    + simpl length. rewrite Z.add_0_r. simpl. apply elem_of_app. left.
      apply list_elem_of_fmap. exists (s, e). by split.
  - assert (Hne : ps <> []) by (intros ->; done).
    destruct (IH (off + Z.of_nat (String.length p0) + 1) ns i Hp Hidx Hse)
      as (pre & post & Hj & Hin).
    exists (list_ascii_of_string p0 ++ list_ascii_of_string newline ++ pre), post.
    split.
    + rewrite py_join_cons by done. rewrite !list_ascii_of_string_app, Hj.
      by rewrite <- !app_assoc.
    + simpl. apply elem_of_app. right.
      rewrite !length_app, string_length_list in *. simpl length.
      replace (off + Z.of_nat (length (list_ascii_of_string p0) + S (length pre)))
        with (off + Z.of_nat (length (list_ascii_of_string p0)) + 1 + Z.of_nat (length pre))
        by lia.
      exact Hin.
Qed.

Lemma take_drop_app (X Y : list ascii) n m :
  (n + m <= length X)%nat -> take m (drop n (X ++ Y)) = take m (drop n X).
Proof.
  intros H. rewrite drop_app_le by lia. rewrite take_app_le; [done|].
  rewrite length_drop. lia.
Qed.

(** X15: when the first context paragraph starts with a non-whitespace
    character, every name span [(s, e)] of a paragraph whose last
    character is not whitespace is shifted by [_flatten_name_indices] to a
    span of the stripped context ['\n'.join(paragraphs).strip()] that
    selects the same text as [paragraph[s:e]]. *)
Theorem X15_context_name_slices ps ns i p idx s e p0 c0 c :
  ps !! i = Some p -> ns !! i = Some idx -> (s, e) ∈ idx ->
  0 <= s < e -> e <= Z.of_nat (String.length p) ->
  list_ascii_of_string p !! Z.to_nat (e - 1) = Some c -> is_py_space c = false ->
  ps !! 0%nat = Some p0 -> hd_error (list_ascii_of_string p0) = Some c0 ->
  is_py_space c0 = false ->
  exists off, (s + off, e + off) ∈ flatten_name_indices ps ns /\
    py_slice (instance_context ps) (s + off) (e + off) = py_slice p s e.
Proof.
  intros Hp Hidx Hse Hs He Hc Hcsp Hp0 Hc0 Hc0sp.
  destruct (flatten_join 0 ps ns i p idx s e Hp Hidx Hse) as (pre & post & Hj & Hin).
  set (P := Z.of_nat (length pre)) in *. rewrite Z.add_0_l in Hin.
  assert (HP : P = Z.of_nat (length pre)) by reflexivity. clearbody P.
  exists P. split; [exact Hin|].
  rewrite string_length_list in He.
  set (lp := list_ascii_of_string p) in *.
  set (J := list_ascii_of_string (py_join newline ps)) in *.
  (* the context is the join with its whitespace suffix removed *)
  destruct (strip_shape (py_join newline ps)) as (spre & suf & Hspre & Hsuf & HJ & _).
  fold J in HJ. set (S := list_ascii_of_string (strip (py_join newline ps))) in *.
  assert (HJhead : hd_error J = Some c0).
  { destruct ps as [|q ps]; [done|]. injection Hp0 as ->. unfold J.
    destruct ps as [|q1 ps]; [done|]. rewrite py_join_cons by done.
    rewrite list_ascii_of_string_app.
    destruct (list_ascii_of_string p0); [done|]. done. }
  assert (Hspre0 : spre = []).
  { destruct spre as [|d spre]; [done|]. exfalso. rewrite HJ in HJhead.
    injection HJhead as ->. apply Forall_cons_1 in Hspre as [Hd _].
    unfold is_sp in Hd. congruence. }
  subst spre. simpl in HJ.
  (* the last character of the name is kept by the strip *)
  assert (Hend : (Z.to_nat (e + P) <= length S)%nat).
  { destruct (decide (Z.to_nat (e + P) <= length S)%nat) as [|Hgt]; [done|exfalso].
    assert (HJc : J !! (length pre + Z.to_nat (e - 1))%nat = Some c).
    { rewrite Hj, lookup_app_r by lia. replace (length pre + Z.to_nat (e - 1) - length pre)%nat
        with (Z.to_nat (e - 1)) by lia. rewrite lookup_app_l; [done|].
      apply lookup_lt_Some in Hc. done. }
    rewrite HJ, lookup_app_r in HJc by lia.
    eapply Forall_lookup_1 in HJc; [|exact Hsuf]. unfold is_sp in HJc. congruence. }
  unfold py_slice, instance_context. fold S. f_equal.
  replace (e + P - (s + P)) with (e - s) by lia.
  assert (Hlen : length J = (length pre + length lp + length post)%nat)
    by (rewrite Hj, !length_app; lia).
  rewrite <- (take_drop_app S suf) by lia. rewrite <- HJ.
  rewrite Hj. replace (Z.to_nat (s + P)) with (length pre + Z.to_nat s)%nat by lia.
  rewrite drop_app_add. fold lp. apply take_drop_app. lia.
Qed.

Lemma token_ids_loop_none indices words :
  token_ids_loop indices words = None <-> exists w, w ∈ words /\ indices !! w = None.
Proof.
  induction words as [|w words IH]; simpl.
  - split; [done|]. intros (w & Hw & _). set_solver.
  - destruct (indices !! w) as [i|] eqn:Hw.
    + destruct (token_ids_loop indices words) eqn:Hl; split.
      * done.
      * intros (w' & [->|Hw']%elem_of_cons & Hn); [congruence|].
        assert (Hc : Some l = None) by (apply IH; eauto). done.
      * intros _. destruct IH as [IH _]. destruct (IH eq_refl) as (w' & ? & ?).
        exists w'. split; [set_solver|done].
      * done.
    + split; [intros _; exists w; split; [set_solver|done]|done].
Qed.

(** X4: [to_token_ids] returns ids exactly when every word of the BPE
    output is a key of [self.indices], the ids being the dictionary values
    of the words in order; it raises [KeyError] exactly when some word is
    missing. *)
Theorem X4_to_token_ids_lookup bpe_encode indices sentence :
  (forall ids, to_token_ids bpe_encode indices sentence = Some ids <->
     Forall2 (fun w i => indices !! w = Some i) (py_split (bpe_encode sentence)) ids) /\
  (to_token_ids bpe_encode indices sentence = None <->
     exists w, w ∈ py_split (bpe_encode sentence) /\ indices !! w = None).
Proof.
  unfold to_token_ids. rewrite tokenize_line_split. split.
  - intros ids. apply token_ids_loop_spec.
  - apply token_ids_loop_none.
Qed.

(* ------------------------------------------------------------------ *)
(** ** Witnesses of the reader properties *)

Lemma X3_tokenize_line_join_witness : Forall py_word ["hello"; "world"] /\
  tokenize_line (py_join " " ["hello"; "world"]) = ["hello"; "world"].
Proof.
  assert (H : Forall py_word ["hello"; "world"]) by (repeat constructor; discriminate).
  split; [exact H|]. apply X3_tokenize_line_join. exact H.
Defined.

Lemma X6_most_common_above_threshold_witness :
  Sorted (fun a b : string * Z => b.2 <= a.2) mc_ex /\ NoDup (map fst mc_ex) /\
  (most_common_of mc_ex 10 !! "Alice" = Some 12 <-> ("Alice", 12) ∈ mc_ex /\ 10 < 12).
Proof.
  assert (Hs : Sorted (fun a b : string * Z => b.2 <= a.2) mc_ex)
    by (repeat constructor; simpl; lia).
  assert (Hn : NoDup (map fst mc_ex)) by (simpl; repeat constructor; set_solver).
  split; [exact Hs|]. split; [exact Hn|]. apply X6_most_common_above_threshold; assumption.
Defined.

Lemma X7_splits_disjoint_witness :
  in_split "valid" doc_may = inr true /\ "valid" = "valid".
Proof.
  assert (H : in_split "valid" doc_may = inr true) by reflexivity.
  split; [exact H|]. exact (X7_splits_disjoint _ _ _ H H).
Defined.

Lemma X8_splits_cover_witness : exists split, in_split split doc_may = inr true.
Proof. apply X8_splits_cover; reflexivity. Defined.

Lemma X9_g_read_instance_origin_witness :
  (g_read unit (fun _ => Some tt) "/img" 1 "val" g_articles g_samples).1 =
    [mkGArgs unit "Context text." "A caption" tt "https://example.com/a1" "/img/s1.jpg"] /\
  exists s a caption, s ∈ g_samples /\ gs_split s = "val" /\
    find_one g_articles (gs_article_id s) = Some a /\
    "/img/s1.jpg" = path_join "/img" (gs_id s ++ ".jpg") /\
    Some tt = Some tt /\
    nth_error (ga_images a) (gs_image_index s) = Some caption /\
    "A caption" = strip caption /\ "Context text." = strip (ga_context a) /\
    "https://example.com/a1" = ga_web_url a.
Proof.
  assert (Hr : (g_read unit (fun _ => Some tt) "/img" 1 "val" g_articles g_samples).1 =
    [mkGArgs unit "Context text." "A caption" tt "https://example.com/a1" "/img/s1.jpg"])
    by (vm_compute; reflexivity).
  split; [exact Hr|].
  apply (X9_g_read_instance_origin unit (fun _ => Some tt) "/img" 1 "val" g_articles g_samples
           (mkGArgs unit "Context text." "A caption" tt "https://example.com/a1" "/img/s1.jpg")).
  rewrite Hr. by apply list_elem_of_singleton.
Defined.

Lemma X10_g_read_val_limit_witness : (0 < 1)%nat /\
  (length (g_read unit (fun _ => Some tt) "/img" 1 "val" g_articles g_samples).1 <= 1)%nat.
Proof. split; [lia|]. apply X10_g_read_val_limit. lia. Defined.

Lemma X11_read_pos_yield_shape_witness :
  read_pos (fun s => String.length s) unit (fun _ => Some tt) None "/images"
    x_dies_article 1 = Yield unit x_dies_args /\
  exists cap_sec, nth_error (art_sections x_dies_article) 1 = Some cap_sec /\
    ia_caption unit x_dies_args = strip (sec_text cap_sec) /\
    match list_ascii_of_string (ia_caption unit x_dies_args) with
    | [] => False
    | c :: _ => is_py_space c = false /\
                is_py_space (List.last (list_ascii_of_string (ia_caption unit x_dies_args)) c)
                  = false
    end /\
    ia_caption_name_indices unit x_dies_args = get_proper_names None (sec_pos cap_sec) /\
    ia_image_path unit x_dies_args = path_join "/images" (sec_hash cap_sec ++ ".jpg") /\
    Some tt = Some (ia_image unit x_dies_args) /\
    ia_pos unit x_dies_args = 1%nat /\ ia_web_url unit x_dies_args = art_web_url x_dies_article.
Proof.
  assert (H : read_pos (fun s => String.length s) unit (fun _ => Some tt) None "/images"
                x_dies_article 1 = Yield unit x_dies_args) by (vm_compute; reflexivity).
  split; [exact H|]. exact (X11_read_pos_yield_shape _ _ _ _ _ _ _ _ H).
Defined.

Lemma X12_read_pos_names_aligned_witness :
  read_pos (fun s => String.length s) unit (fun _ => Some tt) None "/images"
    x_dies_article 1 = Yield unit x_dies_args /\
  exists names, length names = length (ia_paragraphs unit x_dies_args) /\
    ia_name_indices unit x_dies_args =
      flatten_name_indices (ia_paragraphs unit x_dies_args) names /\
    length (ia_name_indices unit x_dies_args) = sum_list_with length names.
Proof.
  assert (H : read_pos (fun s => String.length s) unit (fun _ => Some tt) None "/images"
                x_dies_article 1 = Yield unit x_dies_args) by (vm_compute; reflexivity).
  split; [exact H|]. exact (X12_read_pos_names_aligned _ _ _ _ _ _ _ _ H).
Defined.

Lemma X13_read_articles_origin_witness :
  (read_articles (fun s => String.length s) unit (fun _ => Some tt) None
     "/images" [x_dies_article]).1 = [x_dies_args] /\
  exists art, art ∈ [x_dies_article] /\ ia_pos unit x_dies_args ∈ art_image_positions art /\
    read_pos (fun s => String.length s) unit (fun _ => Some tt) None "/images" art
      (ia_pos unit x_dies_args) = Yield unit x_dies_args.
Proof.
  assert (Hr : (read_articles (fun s => String.length s) unit (fun _ => Some tt)
                  None "/images" [x_dies_article]).1 = [x_dies_args])
    by (vm_compute; reflexivity).
  split; [exact Hr|]. apply X13_read_articles_origin.
  rewrite Hr. by apply list_elem_of_singleton.
Defined.

Lemma X15_context_name_slices_witness :
  instance_context ctx_pars = ("X dies" ++ newline ++ "Alice met Bob")%string /\
  exists off, (10 + off, 13 + off) ∈ flatten_name_indices ctx_pars ctx_names /\
    py_slice (instance_context ctx_pars) (10 + off) (13 + off) = py_slice "Alice met Bob" 10 13.
Proof.
  split; [vm_compute; reflexivity|].
  apply (X15_context_name_slices ctx_pars ctx_names 1 "Alice met Bob" [(0, 5); (10, 13)] 10 13
           "X dies" "X"%char "b"%char); try reflexivity; try lia.
  set_solver.
Defined.
